(** * Citation management and source ranking

    A shallow embedding of [core/agents/citation_manager.py] (class
    [CitationManager]) and of [SearchAgent.rank_sources] from
    [core/agents/search_agent.py], with the properties the specification
    states about them.

    Modelling conventions.
    - A Python [str] is a [string]; its characters are the code points
      below 256.
    - A Python [int] is a [Z].
    - A Python [float] holding a relevance score is a finite double, held
      as the rational [Q] it equals; equality of scores is [Qeq].
      [rank_sources] computes in double precision, rounding as binary64
      does.  [calculate_confidence] is modelled with exact sums and
      quotients: rounding is not modelled there.
    - A Python [dict] is an association list in insertion order
      ([dict_set] overwrites in place or appends at the end).
    - A method that mutates [self] returns the new manager next to its
      result.
    - [rank_sources] writes to the objects it is given: these live in a
      store and are named by reference. *)

From Stdlib Require Import ZArith QArith Qminmax List String Ascii Bool Lia.
From Stdlib Require Import Permutation Sorted FinFun.
From Stdlib Require Import DecimalString DecimalZ DecimalPos DecimalFacts.
From Stdlib Require Import SpecFloat.
Import ListNotations.

Open Scope string_scope.
Open Scope list_scope.
Open Scope Z_scope.

Infix "+++" := String.append (at level 60, right associativity).

(** ** Python strings *)

Module PyStr.

(** [str(n)] / the [{n}] of an f-string, for an [int]. *)
Definition str_of_int (z : Z) : string := NilZero.string_of_int (Z.to_int z).

(** Characters [int()] strips from both ends of its argument: the ASCII
    white space, and the two other white-space code points below 256. *)
Definition is_int_space (c : ascii) : bool :=
  let n := nat_of_ascii c in
  ((9 <=? n) && (n <=? 13) || (n =? 32) || (n =? 133) || (n =? 160))%nat.

Fixpoint lstrip (s : string) : string :=
  match s with
  | String c r => if is_int_space c then lstrip r else s
  | "" => ""
  end.

Fixpoint rstrip (s : string) : string :=
  match s with
  | String c r =>
      match rstrip r with
      | "" => if is_int_space c then "" else String c ""
      | r' => String c r'
      end
  | "" => ""
  end.

Definition strip (s : string) : string := rstrip (lstrip s).

(** A non-empty run of decimal digits, read in base ten. *)
Definition parse_digits (s : string) : option Z :=
  match s with
  | "" => None
  | _ => option_map Z.of_uint (NilEmpty.uint_of_string s)
  end.

(** [int(s)] for a string [s] without ['_']: white space stripped, an
    optional sign, then digits.  [None] stands for [ValueError]. *)
Definition py_int (s : string) : option Z :=
  match strip s with
  | String c r =>
      if Ascii.eqb c "-" then option_map Z.opp (parse_digits r)
      else if Ascii.eqb c "+" then parse_digits r
      else parse_digits (String c r)
  | "" => None
  end.

(** [s.split(sep)] for a one-character separator. *)
Fixpoint split_on (sep : ascii) (s : string) : list string :=
  match s with
  | "" => [""]
  | String c r =>
      if Ascii.eqb c sep then "" :: split_on sep r
      else match split_on sep r with
           | p :: ps => String c p :: ps
           | [] => [String c ""]
           end
  end.

(** [sep.join(l)] *)
Fixpoint join (sep : string) (l : list string) : string :=
  match l with
  | [] => ""
  | [p] => p
  | p :: ps => p +++ sep +++ join sep ps
  end.

End PyStr.

Import PyStr.

Fixpoint string_forall (p : ascii -> bool) (s : string) : bool :=
  match s with
  | "" => true
  | String c r => p c && string_forall p r
  end.

Definition is_digit (c : ascii) : bool :=
  let n := nat_of_ascii c in ((48 <=? n) && (n <=? 57))%nat.

Definition not_int_space (c : ascii) : bool := negb (is_int_space c).

Definition not_underscore (c : ascii) : bool := negb (Ascii.eqb c "_").

(** ** Data model ([core/models/state.py]) *)

Record Source := mkSource {
  id : string;
  url : string;
  title : string;
  snippet : string;
  domain : string;
  timestamp : Z;
  relevance_score : Q
}.

Record CitedContent := mkCitedContent {
  content : string;
  source_ids : list string;
  confidence : Q
}.

Definition with_score (s : Source) (q : Q) : Source :=
  mkSource (id s) (url s) (title s) (snippet s) (domain s) (timestamp s) q.

(** ** Python dictionaries, in insertion order *)

Section Dict.
Context {V : Type}.

Definition dict := list (string * V).

Definition dict_keys (d : dict) : list string := map fst d.

Fixpoint dict_get (k : string) (d : dict) : option V :=
  match d with
  | [] => None
  | (k', v) :: r => if String.eqb k' k then Some v else dict_get k r
  end.


(** [d[k] = v]: an existing key keeps its place, a new key goes last. *)
Fixpoint dict_set (k : string) (v : V) (d : dict) : dict :=
  match d with
  | [] => [(k, v)]
  | (k', v') :: r =>
      if String.eqb k' k then (k, v) :: r else (k', v') :: dict_set k v r
  end.

Definition dict_wf (d : dict) : Prop := NoDup (dict_keys d).

End Dict.

Arguments dict V : clear implicits.

(** ** The citation manager ([core/agents/citation_manager.py]) *)

Record CitationManager := mkManager {
  source_registry : dict Source;
  citation_counter : Z;
  url_to_id : dict string
}.

(** [reset]: the state every manager starts from. *)
Definition reset : CitationManager := mkManager [] 1 [].

(** The loop of [add_source]: the first entry, in insertion order, whose
    url is the given one. *)
Definition find_url (u : string) (d : dict Source) : option (string * Source) :=
  find (fun e => String.eqb (url (snd e)) u) d.

Definition add_source (m : CitationManager) (source : Source)
  : string * CitationManager :=
  match find_url (url source) (source_registry m) with
  | Some (existing_id, _) => (existing_id, m)
  | None =>
      let source_id := "src_" +++ str_of_int (citation_counter m) in
      (source_id,
       mkManager (dict_set source_id source (source_registry m))
                 (citation_counter m + 1)
                 (url_to_id m))
  end.

(** [list.index], counted from 0; [None] when the element is absent. *)
Fixpoint list_index (x : string) (l : list string) : option nat :=
  match l with
  | [] => None
  | y :: r => if String.eqb y x then Some O
              else option_map S (list_index x r)
  end.

Definition get_citation_number (m : CitationManager) (source_id : string) : Z :=
  match list_index source_id (dict_keys (source_registry m)) with
  | Some i => Z.of_nat i + 1
  | None => 0
  end.

(** [min(a, b)] of two numbers: the first one unless the second is smaller. *)
Definition py_min (a b : Q) : Q := if Qle_bool a b then a else b.

(** [sum(...)] over the generator of [calculate_confidence]: the scores
    of the identifiers found in the registry, added from the left,
    starting from 0. *)
Definition total_relevance (m : CitationManager) (ids : list string) : Q :=
  fold_left
    (fun acc sid =>
       match dict_get sid (source_registry m) with
       | Some s => (acc + relevance_score s)%Q
       | None => acc
       end)
    ids 0%Q.

Definition calculate_confidence (m : CitationManager) (ids : list string) : Q :=
  match ids with
  | [] => 0%Q
  | _ => py_min (total_relevance m ids / inject_Z (Z.of_nat (List.length ids)))%Q 1%Q
  end.

(** *** Sentence splitting: [re.split(r'(?<=[.!?])\s+', text)] *)

(** [\s] on a [str]: the white space among the code points below 256. *)
Definition is_space (c : ascii) : bool :=
  let n := nat_of_ascii c in
  ((9 <=? n) && (n <=? 13) || (28 <=? n) && (n <=? 32)
   || (n =? 133) || (n =? 160))%nat.

(** The look-behind class [[.!?]]. *)
Definition is_terminator (c : ascii) : bool :=
  Ascii.eqb c "." || Ascii.eqb c "!" || Ascii.eqb c "?".

Definition starts_with_space (s : string) : bool :=
  match s with
  | String c _ => is_space c
  | "" => false
  end.

Definition cons_head (c : ascii) (l : list string) : list string :=
  match l with
  | p :: ps => String c p :: ps
  | [] => [String c ""]
  end.

(** The pieces between the matches, scanning left to right.  A match
    starts at a white-space character that follows a terminator and
    takes the whole run of white space; [in_match] tells that the scan
    is inside such a run. *)
Fixpoint split_from (in_match : bool) (s : string) : list string :=
  match s with
  | "" => [""]
  | String c r =>
      if in_match && is_space c then split_from true r
      else if is_terminator c && starts_with_space r
           then cons_head c ("" :: split_from true r)
           else cons_head c (split_from false r)
  end.

Definition re_split_sentences (text : string) : list string :=
  split_from false text.

(** The matched runs of white space themselves, in order.  Inside a
    match the head of the result is the rest of the current run. *)
Fixpoint seps_from (in_match : bool) (s : string) : list string :=
  match s with
  | "" => if in_match then [""] else []
  | String c r =>
      if in_match && is_space c then cons_head c (seps_from true r)
      else
        let k := seps_from (is_terminator c && starts_with_space r) r in
        if in_match then "" :: k else k
  end.

Definition sentence_separators (text : string) : list string :=
  seps_from false text.

(** [l[-1] += c] *)
Fixpoint append_last (l : list string) (c : string) : list string :=
  match l with
  | [] => []
  | [p] => [p +++ c]
  | p :: ps => p :: append_last ps c
  end.

Definition insert_citations (text citation : string) : string :=
  let sentences := re_split_sentences text in
  let sentences :=
    match sentences with
    | [] => sentences
    | _ => append_last sentences citation
    end in
  join " " sentences.

Definition citation_marker (m : CitationManager) (source_id : string) : string :=
  "[" +++ str_of_int (get_citation_number m source_id) +++ "]".

Definition create_cited_content (m : CitationManager) (content : string)
  (ids : list string) : CitedContent :=
  let cited_content :=
    fold_left
      (fun cited source_id => insert_citations cited (citation_marker m source_id))
      ids content in
  mkCitedContent cited_content ids (calculate_confidence m ids).

(** *** [sorted(iterable, key=..., reverse=...)]

    The built-in sort is stable; with [reverse] every comparison is
    reversed and equal keys still keep their input order.  [lt] is the
    [<] of the keys. *)

Section Sorted.
Context {A K : Type} (lt : K -> K -> bool) (key : A -> K) (reverse : bool).

Definition goes_after (x y : A) : bool :=
  if reverse then lt (key x) (key y) else lt (key y) (key x).

Fixpoint sorted_insert (x : A) (l : list A) : list A :=
  match l with
  | [] => [x]
  | y :: ys => if goes_after x y then y :: sorted_insert x ys else x :: y :: ys
  end.

Fixpoint py_sorted (l : list A) : list A :=
  match l with
  | [] => []
  | x :: xs => sorted_insert x (py_sorted xs)
  end.

End Sorted.

(** *** The bibliography *)

(** The sort key of [format_sources_list]; [None] is [float('inf')],
    returned when the identifier has no second ['_']-separated field
    ([IndexError]) or the field is not an integer ([ValueError]). *)
Definition get_id_number (item : string * Source) : option Z :=
  match nth_error (split_on "_" (fst item)) 1 with
  | Some number_part => py_int number_part
  | None => None
  end.

(** [<] between keys: integers by value, all below infinity. *)
Definition key_lt (a b : option Z) : bool :=
  match a, b with
  | Some x, Some y => x <? y
  | Some _, None => true
  | None, _ => false
  end.

Definition str_mem (x : string) (l : list string) : bool :=
  existsb (String.eqb x) l.

Definition sources_header : string :=
  String "010" (String "010" ("**Sources:**" +++ String "010" "")).

Definition source_row (count : Z) (source : Source) : string :=
  str_of_int count +++ ". [" +++ title source +++ "](" +++ url source
  +++ ") - " +++ domain source +++ String "010" "".

(** One turn of the loop: the text so far, the urls seen, the count. *)
Definition sources_step (st : string * list string * Z) (item : string * Source)
  : string * list string * Z :=
  let '(sources_text, seen_urls, count) := st in
  let source := snd item in
  if negb (str_mem (url source) seen_urls) && (count <? 10) then
    let count := count + 1 in
    (sources_text +++ source_row count source, url source :: seen_urls, count)
  else st.

Definition sorted_sources (m : CitationManager) : list (string * Source) :=
  py_sorted key_lt get_id_number false (source_registry m).

Definition format_sources_list (m : CitationManager) : string :=
  let '(sources_text, _, _) :=
    fold_left sources_step (sorted_sources m) (sources_header, [], 0) in
  sources_text.

(** The same loop, recording instead of the text which entry got which
    row number. *)
Definition rows_step (st : list (Z * (string * Source)) * list string * Z)
  (item : string * Source) : list (Z * (string * Source)) * list string * Z :=
  let '(rows, seen_urls, count) := st in
  let source := snd item in
  if negb (str_mem (url source) seen_urls) && (count <? 10) then
    let count := count + 1 in
    (rows ++ [(count, item)], url source :: seen_urls, count)
  else st.

Definition bibliography_rows (m : CitationManager) : list (Z * (string * Source)) :=
  let '(rows, _, _) := fold_left rows_step (sorted_sources m) ([], [], 0) in
  rows.

(** ** Double precision

    A finite double is held as the rational it equals.  [Q2SF] reads a
    rational as a double, rounding to nearest, ties to even, when it is
    none: [Q2SF (9 # 10)] is the double written [0.9].  [SF2Q] gives the
    rational of a finite double.  Sum and quotient are those of binary64.
    The infinities and NaN have no rational: scores and results are taken
    to be finite. *)

Definition binary64_prec : Z := 53.
Definition binary64_emax : Z := 1024.

Definition Q2SF (q : Q) : spec_float :=
  match Qnum q with
  | Z0 => S754_zero false
  | Zpos n =>
      SFdiv binary64_prec binary64_emax
            (S754_finite false n 0) (S754_finite false (Qden q) 0)
  | Zneg n =>
      SFdiv binary64_prec binary64_emax
            (S754_finite true n 0) (S754_finite false (Qden q) 0)
  end.

Definition SF2Q (f : spec_float) : Q :=
  match f with
  | S754_finite s m e =>
      let n := if s then Zneg m else Zpos m in
      match e with
      | Zneg k => n # (2 ^ k)%positive
      | _ => inject_Z (n * 2 ^ e)
      end
  | _ => 0%Q
  end.

(** The double nearest to [q]: what the literal [q] denotes. *)
Definition double_of (q : Q) : Q := SF2Q (Q2SF q).

(** [a + b] and [a / b] on doubles. *)
Definition float_add (a b : Q) : Q :=
  SF2Q (SFadd binary64_prec binary64_emax (Q2SF a) (Q2SF b)).

Definition float_div (a b : Q) : Q :=
  SF2Q (SFdiv binary64_prec binary64_emax (Q2SF a) (Q2SF b)).

(** ** Ranking ([SearchAgent.rank_sources]) *)

Definition domain_weights : dict Q :=
  [ ("wikipedia.org", double_of (9 # 10));
    ("reddit.com", double_of (7 # 10));
    ("stackoverflow.com", double_of (8 # 10));
    ("github.com", double_of (8 # 10));
    ("medium.com", double_of (7 # 10)) ].

Definition domain_weight (d : string) : Q :=
  match dict_get d domain_weights with
  | Some w => w
  | None => double_of (5 # 10)
  end.

(** [(source.relevance_score + domain_weight) / 2] *)
Definition blend (score weight : Q) : Q :=
  float_div (float_add score weight) 2.

Definition rescore (source : Source) : Source :=
  with_score source (blend (relevance_score source) (domain_weight (domain source))).

Definition Qlt_bool (a b : Q) : bool := negb (Qle_bool b a).

(** [rank_sources] writes to the [Source] objects of its argument, and
    one object may stand at several places of the list: the objects live
    in a store, addressed by reference, and the list holds references.
    (The citation manager never writes to a source, so its registry
    holds the sources themselves.) *)
Definition ref := nat.

Definition store := ref -> Source.

Definition store_set (h : store) (r : ref) (s : Source) : store :=
  fun r' => if Nat.eqb r' r then s else h r'.

(** One turn of the loop:
    [source.relevance_score = (source.relevance_score + domain_weight) / 2]. *)
Definition rescore_step (h : store) (r : ref) : store :=
  store_set h r (rescore (h r)).

(** The store after the loop, and the list returned by
    [sorted(sources, key=lambda x: x.relevance_score, reverse=True)]. *)
Definition rank_sources (h : store) (sources : list ref) (query : string)
  : store * list ref :=
  let h := fold_left rescore_step sources h in
  (h, py_sorted Qlt_bool (fun x => relevance_score (h x)) true sources).

(** ** Reachable managers *)

Inductive reachable : CitationManager -> Prop :=
| reachable_reset : reachable reset
| reachable_add m source : reachable m -> reachable (snd (add_source m source)).

(** The identifier minted when the counter is [c]. *)
Definition src_id (c : Z) : string := "src_" +++ str_of_int c.

(** A registry holding the given sources under consecutive identifiers
    from [c] on. *)
Fixpoint number_from (c : Z) (l : list Source) : dict Source :=
  match l with
  | [] => []
  | s :: r => (src_id c, s) :: number_from (c + 1) r
  end.

(** [add_source] called on each source in turn; the identifiers returned,
    in call order, and the final manager. *)
Fixpoint add_all (m : CitationManager) (l : list Source)
  : list string * CitationManager :=
  match l with
  | [] => ([], m)
  | s :: r =>
      let '(i, m1) := add_source m s in
      let '(rest_ids, m2) := add_all m1 r in
      (i :: rest_ids, m2)
  end.

(** No two identifiers of the registry hold sources with the same url. *)
Definition url_unique (d : dict Source) : Prop :=
  forall k1 k2 s1 s2,
    dict_get k1 d = Some s1 -> dict_get k2 d = Some s2 ->
    url s1 = url s2 -> k1 = k2.

(** The shape of every reachable manager: the sources [l], with distinct
    urls, under the identifiers [src_1], [src_2], ... *)
Definition canonical (m : CitationManager) (l : list Source) : Prop :=
  source_registry m = number_from 1 l
  /\ citation_counter m = 1 + Z.of_nat (List.length l)
  /\ NoDup (map url l).

(** A source with the given url (also its title), domain and score, for
    the examples. *)
Definition demo_source (u d : string) (q : Q) : Source :=
  mkSource "" u u "" d 0 q.

(** A store whose object [0] is a wikipedia.org source and whose other
    objects are unknown.xyz sources, all of score 0.6. *)
Definition demo_store : store :=
  fun r =>
    match r with
    | O => demo_source "https://en.wikipedia.org/wiki/X" "wikipedia.org"
                       (double_of (6 # 10))
    | _ => demo_source "https://unknown.xyz/x" "unknown.xyz" (double_of (6 # 10))
    end.

(** A store whose object [0] is a reddit.com source of score 0.1 and
    whose other objects are sources of score 0.3 on a domain that is not
    in the table. *)
Definition close_store : store :=
  fun r =>
    match r with
    | O => demo_source "https://reddit.com/a" "reddit.com" (double_of (1 # 10))
    | _ => demo_source "https://example.net/b" "example.net" (double_of (3 # 10))
    end.

(** ** Confidence, as the specification words it *)

(** The scores of the identifiers of [ids] found in the registry. *)
Definition present_scores (m : CitationManager) (ids : list string) : list Q :=
  flat_map
    (fun sid =>
       match dict_get sid (source_registry m) with
       | Some s => [relevance_score s]
       | None => []
       end)
    ids.

Definition Qsum (l : list Q) : Q := fold_right Qplus 0%Q l.

Definition Qlen {A} (l : list A) : Q := inject_Z (Z.of_nat (List.length l)).


(** The sum of the scores of the identifiers present, divided by the
    number of identifiers given, clamped to 1. *)
Definition confidence_over_all (m : CitationManager) (ids : list string) : Q :=
  match ids with
  | [] => 0%Q
  | _ => py_min (Qsum (present_scores m ids) / Qlen ids)%Q 1%Q
  end.


(** A manager holding one source, of url ["A.com"], under [src_1]. *)
Definition one_source (q : Q) : CitationManager :=
  snd (add_source reset (demo_source "A.com" "a.com" q)).

(** Keys [a] and [b] between which [sorted] sees no difference. *)
Definition key_tied {K} (lt : K -> K -> bool) (a b : K) : bool :=
  negb (lt a b) && negb (lt b a).

(** [in_order x y]: [sorted] may leave [x] before [y]. *)
Definition in_order {A K} (lt : K -> K -> bool) (key : A -> K) (reverse : bool)
  (x y : A) : Prop :=
  goes_after lt key reverse x y = false.

(** ** The bibliography, as the specification words it *)

(** Keys in ascending order, infinity last. *)
Definition key_le (a b : option Z) : Prop :=
  match a, b with
  | Some x, Some y => x <= y
  | _, None => True
  | None, Some _ => False
  end.

(** The entries whose url is neither in [seen] nor carried by an earlier
    entry. *)
Fixpoint dedup_urls (seen : list string) (l : list (string * Source))
  : list (string * Source) :=
  match l with
  | [] => []
  | item :: r =>
      if str_mem (url (snd item)) seen then dedup_urls seen r
      else item :: dedup_urls (url (snd item) :: seen) r
  end.

(** Row numbers [c], [c + 1], ... given to the entries in order. *)
Fixpoint number_rows (c : Z) (l : list (string * Source))
  : list (Z * (string * Source)) :=
  match l with
  | [] => []
  | item :: r => (c, item) :: number_rows (c + 1) r
  end.

(** The rows [N. [title](url) - domain], one per line. *)
Fixpoint render_rows (rows : list (Z * (string * Source))) : string :=
  match rows with
  | [] => ""
  | (n, (_, s)) :: r =>
      str_of_int n +++ ". [" +++ title s +++ "](" +++ url s +++ ") - "
      +++ domain s +++ String "010" "" +++ render_rows r
  end.

Definition entry_url (item : string * Source) : string := url (snd item).

(** The numeric suffix of an identifier, as the specification words the
    order of the bibliography: the integer after the last underscore;
    none when what stands there is no integer. *)
Definition numeric_suffix (identifier : string) : option Z :=
  py_int (last (split_on "_" identifier) "").

(** The entries of the registry in ascending order of the numeric suffix
    of their identifier, those without one last. *)
Definition sorted_by_suffix (m : CitationManager) : list (string * Source) :=
  py_sorted key_lt (fun item => numeric_suffix (fst item)) false (source_registry m).

(** A registry filled by hand, whose identifiers are not all of the form
    [src_N]; every source has its identifier as title. *)
Definition by_hand : CitationManager :=
  mkManager
    [ ("src_7", mkSource "src_7" "https://example.org/7" "src_7" "" "example.org" 0 (1 # 2));
      ("src_3_x", mkSource "src_3_x" "https://example.org/3x" "src_3_x" "" "example.org" 0 (1 # 2));
      ("a_b_3", mkSource "a_b_3" "https://example.org/ab3" "a_b_3" "" "example.org" 0 (1 # 2)) ]
    1 [].

(** Fifteen sources with fifteen different urls. *)
Definition fifteen_sources : list Source :=
  map (fun i => demo_source ("https://example.org/" +++ str_of_int (Z.of_nat i))
                            "example.org" (1 # 2))
      (seq 1 15).

Definition fifteen : CitationManager := snd (add_all reset fifteen_sources).

(** ** Annotation, as the specification words it *)

(** The strings of a list, one after the other. *)
Definition concat_all (l : list string) : string := fold_right String.append "" l.

(** Pieces and separators put back together: piece, separator, piece, ... *)
Fixpoint weave (pieces seps : list string) : string :=
  match pieces with
  | [] => ""
  | p :: ps =>
      match seps with
      | [] => p +++ weave ps []
      | s :: ss => p +++ s +++ weave ps ss
      end
  end.

Definition no_space (s : string) : bool :=
  string_forall (fun c => negb (is_space c)) s.

Definition markers (m : CitationManager) (ids : list string) : list string :=
  map (fun sid => "[" +++ str_of_int (get_citation_number m sid) +++ "]") ids.

(** A terminator directly followed by white space somewhere in [s]: a
    place where the pattern matches. *)
Fixpoint has_boundary (s : string) : bool :=
  match s with
  | "" => false
  | String c r => (is_terminator c && starts_with_space r) || has_boundary r
  end.

Fixpoint ends_with_terminator (s : string) : bool :=
  match s with
  | "" => false
  | String c "" => is_terminator c
  | String _ r => ends_with_terminator r
  end.

(** What the split of a text into sentences is: the pieces and the
    separators make up the text; every separator is a non-empty run of
    white space, stands after a terminator and is followed by no further
    white space; no piece has a place left where the pattern matches. *)
Definition sentence_split (text : string) (pieces seps : list string) : Prop :=
  text = weave pieces seps
  /\ List.length pieces = S (List.length seps)
  /\ Forall (fun sep => sep <> "" /\ string_forall is_space sep = true) seps
  /\ Forall (fun p => ends_with_terminator p = true) (removelast pieces)
  /\ Forall (fun p => starts_with_space p = false) (tl pieces)
  /\ Forall (fun p => has_boundary p = false) pieces.

(** * The rest of the search agent ([core/agents/search_agent.py]) *)

(** ** [deduplicate_sources] *)

(** One turn of the loop: the list built so far and the urls seen. *)
Definition dedup_step (h : store) (st : list ref * list string) (r : ref)
  : list ref * list string :=
  let '(unique_sources, seen_urls) := st in
  if negb (str_mem (url (h r)) seen_urls)
  then (unique_sources ++ [r], url (h r) :: seen_urls)
  else st.

Definition deduplicate_sources (h : store) (sources : list ref) : list ref :=
  fst (fold_left (dedup_step h) sources ([], [])).

(** The elements of a list whose key is neither in [seen] nor the key of
    an earlier element. *)
Fixpoint dedup_by {A} (key : A -> string) (seen : list string) (l : list A)
  : list A :=
  match l with
  | [] => []
  | x :: r =>
      if str_mem (key x) seen then dedup_by key seen r
      else x :: dedup_by key (key x :: seen) r
  end.

(** [subseq a b]: [a] is [b] with some elements left out. *)
Inductive subseq {A} : list A -> list A -> Prop :=
| subseq_nil : subseq [] []
| subseq_skip x a b : subseq a b -> subseq a (x :: b)
| subseq_keep x a b : subseq a b -> subseq (x :: a) (x :: b).

(** ** [generate_search_queries], after the answer of the model *)

(** [s.strip()]: white space taken off both ends. *)
Fixpoint py_lstrip (s : string) : string :=
  match s with
  | String c r => if is_space c then py_lstrip r else s
  | "" => ""
  end.

Fixpoint py_rstrip (s : string) : string :=
  match s with
  | String c r =>
      match py_rstrip r with
      | "" => if is_space c then "" else String c ""
      | r' => String c r'
      end
  | "" => ""
  end.

Definition py_strip (s : string) : string := py_rstrip (py_lstrip s).

Definition newline : ascii := "010"%char.

Definition nonempty (s : string) : bool :=
  match s with "" => false | _ => true end.

(** [[q.strip() for q in content.split('\n') if q.strip()][:5]] *)
Definition parse_queries (content : string) : list string :=
  firstn 5 (map py_strip
              (filter (fun q => nonempty (py_strip q)) (split_on newline content))).

Fixpoint ends_with_space (s : string) : bool :=
  match s with
  | "" => false
  | String c "" => is_space c
  | String _ r => ends_with_space r
  end.

(** ** [process_search_results] *)

(** A hit of the search service: a dictionary that may hold the keys
    ["content"], ["snippet"], ["url"], ["title"] and ["score"]. *)
Record RawResult := mkRaw {
  raw_content : option string;
  raw_snippet : option string;
  raw_url : option string;
  raw_title : option string;
  raw_score : option Q
}.

(** An element of [results["results"]]: a dictionary or something else. *)
Inductive raw_item :=
| RawDict (result : RawResult)
| RawOther.

(** [isinstance(result, dict)] *)
Definition is_dict (x : raw_item) : bool :=
  match x with RawDict _ => true | RawOther => false end.

(** [d.get(key, default)] *)
Definition get_or {A} (o : option A) (default : A) : A :=
  match o with Some v => v | None => default end.

Section ProcessSearchResults.

(** [urlparse(url).netloc] of the standard library, [None] when it
    raises; and the clock read by [datetime.now()] for the [i]-th hit. *)
Variable urlparse_netloc : string -> option string.
Variable clock : nat -> Z.

Definition extract_domain (u : string) : string :=
  match urlparse_netloc u with
  | Some netloc => netloc
  | None => "unknown"
  end.

(** The body of the loop for the dictionary at index [i]. *)
Definition source_of_result (i : nat) (result : RawResult) : Source :=
  let content := get_or (raw_content result) (get_or (raw_snippet result) "") in
  let content :=
    match raw_snippet result with
    | Some s => if (String.length content <? 200)%nat then s else content
    | None => content
    end in
  mkSource ""
           (get_or (raw_url result) "")
           (get_or (raw_title result) ("Source " +++ str_of_int (Z.of_nat i + 1)))
           (substring 0 800 content)
           (extract_domain (get_or (raw_url result) ""))
           (clock i)
           (get_or (raw_score result) (1 # 2)%Q).

Fixpoint process_items (i : nat) (items : list raw_item) : list Source :=
  match items with
  | [] => []
  | RawDict result :: r => source_of_result i result :: process_items (S i) r
  | RawOther :: r => process_items (S i) r
  end.

(** [results] is [None] when the answer is no dictionary or has no key
    ["results"]. *)
Definition process_search_results (results : option (list raw_item))
  (query : string) : list Source :=
  match results with
  | Some items => process_items 0 items
  | None => []
  end.

End ProcessSearchResults.

(** ** [search_and_analyze], steps 3 and 4

    Steps 1 and 2 ask the language model and the search service and put
    the sources found into [all_sources]; what follows works on that
    list and on the manager the function has reset at its start. *)

(** [d[k] = v] for a dictionary with integer keys. *)
Fixpoint int_dict_set {V} (k : Z) (v : V) (d : list (Z * V)) : list (Z * V) :=
  match d with
  | [] => [(k, v)]
  | (k', v') :: r =>
      if k' =? k then (k, v) :: r else (k', v') :: int_dict_set k v r
  end.

(** The loop over [enumerate(ranked_sources[:10], start=1)]: the manager,
    [source_registry] and [indexed_sources]. *)
Fixpoint register_loop (i : Z) (ranked : list Source)
  (st : CitationManager * dict Source * list (Z * (string * string)))
  : CitationManager * dict Source * list (Z * (string * string)) :=
  match ranked with
  | [] => st
  | source :: r =>
      let '(m, source_registry, indexed_sources) := st in
      let '(source_id, m) := add_source m source in
      register_loop (i + 1) r
        (m, dict_set source_id source source_registry,
         int_dict_set i (url source, title source) indexed_sources)
  end.

(** The store after ranking, the manager, and the entries ["sources"] and
    ["indexed_sources"] of the result. *)
Definition register_ranked (h : store) (all_sources : list ref) (query : string)
  : store * (CitationManager * dict Source * list (Z * (string * string))) :=
  let unique_sources := deduplicate_sources h all_sources in
  let '(h, ranked_sources) := rank_sources h unique_sources query in
  (h, register_loop 1 (map h (firstn 10 ranked_sources)) (reset, [], [])).

(** [(1, (url, title)), (2, (url, title)), ...] *)
Fixpoint index_rows (c : Z) (l : list Source) : list (Z * (string * string)) :=
  match l with
  | [] => []
  | s :: r => (c, (url s, title s)) :: index_rows (c + 1) r
  end.

(** * The synthesis agent ([core/agents/synthesis_agent.py]) *)

(** The manager of [synthesize_response] once the sources of the state
    are loaded: reset, registry emptied, every value added in turn. *)
Definition load_sources (sources : dict Source) : CitationManager :=
  let m := reset in
  let m := mkManager [] (citation_counter m) (url_to_id m) in
  snd (add_all m (map snd sources)).

(** [synthesize_response] from the answer of the language model on: the
    cited content and the final response ([format_final_response]). *)
Definition synthesize_response (sources : dict Source) (synthesized_text : string)
  : CitedContent * string :=
  let m := load_sources sources in
  let top_source_ids := firstn 5 (dict_keys (source_registry m)) in
  let cited_content := create_cited_content m synthesized_text top_source_ids in
  (cited_content, content cited_content +++ format_sources_list m).


(** * Properties *)

(** ** Strings *)

Lemma append_nil_r (s : string) : s +++ "" = s.
Proof. induction s as [|c s IH]; simpl; congruence. Qed.

Lemma append_assoc (a b c : string) : (a +++ b) +++ c = a +++ b +++ c.
Proof. induction a as [|x a IH]; simpl; congruence. Qed.

Lemma length_append (a b : string) :
  String.length (a +++ b) = (String.length a + String.length b)%nat.
Proof. induction a as [|x a IH]; simpl; congruence. Qed.

Lemma append_inv_head (a b c : string) : a +++ b = a +++ c -> b = c.
Proof. induction a as [|x a IH]; simpl; intros H; [assumption|]. injection H. auto. Qed.

Lemma append_inv_len (a a' b b' : string) :
  String.length a = String.length a' ->
  a +++ b = a' +++ b' -> a = a' /\ b = b'.
Proof.
  revert a'. induction a as [|x a IH]; intros [|y a'] Hl H; simpl in *; try discriminate.
  - auto.
  - injection H as -> H. injection Hl as Hl.
    destruct (IH _ Hl H) as [-> ->]. auto.
Qed.

Lemma append_inv_tail (a b c : string) : a +++ c = b +++ c -> a = b.
Proof.
  intros H. apply (append_inv_len a b c c); [|assumption].
  apply (f_equal String.length) in H. rewrite !length_append in H. lia.
Qed.

Example str_of_int_12 : str_of_int 12 = "12".
Proof. reflexivity. Qed.

Example py_int_examples :
  py_int "12" = Some 12 /\ py_int " 007 " = Some 7 /\ py_int "-3" = Some (-3)
  /\ py_int "" = None /\ py_int "x" = None /\ py_int "1 2" = None.
Proof. repeat split; reflexivity. Qed.

Example split_on_examples :
  split_on "_" "src_12" = ["src"; "12"] /\ split_on "_" "src" = ["src"]
  /\ split_on "_" "a__b_" = ["a"; ""; "b"; ""].
Proof. repeat split; reflexivity. Qed.

(** ** Decimal printing and parsing agree *)

Lemma string_forall_append p a b :
  string_forall p (a +++ b) = string_forall p a && string_forall p b.
Proof. induction a as [|c a IH]; simpl; [reflexivity|]. rewrite IH, andb_assoc. reflexivity. Qed.

Lemma string_forall_impl (p q : ascii -> bool) s :
  (forall c, p c = true -> q c = true) ->
  string_forall p s = true -> string_forall q s = true.
Proof.
  intros Hpq. induction s as [|c s IH]; simpl; [reflexivity|].
  rewrite !andb_true_iff. intros [H1 H2]. auto.
Qed.

Lemma lstrip_id s : string_forall not_int_space s = true -> lstrip s = s.
Proof.
  destruct s as [|c s]; simpl; [reflexivity|].
  unfold not_int_space. rewrite andb_true_iff, negb_true_iff. intros [-> _]. reflexivity.
Qed.

Lemma rstrip_id s : string_forall not_int_space s = true -> rstrip s = s.
Proof.
  induction s as [|c s IH]; simpl; [reflexivity|].
  unfold not_int_space at 1. rewrite andb_true_iff, negb_true_iff. intros [Hc Hs].
  rewrite (IH Hs), Hc. destruct s; reflexivity.
Qed.

Lemma strip_id s : string_forall not_int_space s = true -> strip s = s.
Proof. intros H. unfold strip. rewrite (lstrip_id _ H). apply rstrip_id, H. Qed.

Lemma is_digit_not_space c : is_digit c = true -> not_int_space c = true.
Proof.
  unfold is_digit, not_int_space, is_int_space.
  destruct (nat_of_ascii c) as [|n]; [discriminate|].
  do 47 (destruct n as [|n]; [discriminate|]).
  do 10 (destruct n as [|n]; [reflexivity|]).
  discriminate.
Qed.

Lemma is_digit_not_sign c :
  is_digit c = true -> Ascii.eqb c "-" = false /\ Ascii.eqb c "+" = false.
Proof.
  intros H. split; apply Ascii.eqb_neq; intros ->; discriminate H.
Qed.

Lemma string_of_uint_digits d :
  string_forall is_digit (NilEmpty.string_of_uint d) = true.
Proof. induction d; simpl; auto. Qed.

Lemma string_of_uint_pos p :
  exists c r, NilEmpty.string_of_uint (Pos.to_uint p) = String c r.
Proof.
  pose proof (Unsigned.to_uint_nonnil p) as Hn.
  destruct (Pos.to_uint p); [congruence| |..]; simpl; eauto.
Qed.

Lemma parse_digits_pos p :
  parse_digits (NilEmpty.string_of_uint (Pos.to_uint p)) = Some (Z.pos p).
Proof.
  destruct (string_of_uint_pos p) as (c & r & E).
  unfold parse_digits. rewrite E, <- E, NilEmpty.usu. simpl.
  f_equal. exact (DecimalZ.of_to (Z.pos p)).
Qed.

Lemma str_of_int_pos p :
  str_of_int (Z.pos p) = NilEmpty.string_of_uint (Pos.to_uint p).
Proof.
  unfold str_of_int. simpl. unfold NilZero.string_of_uint.
  pose proof (Unsigned.to_uint_nonnil p) as Hn.
  destruct (Pos.to_uint p); [congruence| |..]; reflexivity.
Qed.

Lemma str_of_int_neg p :
  str_of_int (Z.neg p) = String "-" (NilEmpty.string_of_uint (Pos.to_uint p)).
Proof.
  unfold str_of_int. simpl. unfold NilZero.string_of_uint.
  pose proof (Unsigned.to_uint_nonnil p) as Hn.
  destruct (Pos.to_uint p); [congruence| |..]; reflexivity.
Qed.

(** [int(str(z)) == z] *)
Lemma py_int_str_of_int z : py_int (str_of_int z) = Some z.
Proof.
  destruct z as [|p|p].
  - reflexivity.
  - rewrite str_of_int_pos. unfold py_int.
    pose proof (string_of_uint_digits (Pos.to_uint p)) as Hd.
    rewrite strip_id by (eapply string_forall_impl; [apply is_digit_not_space|exact Hd]).
    pose proof (parse_digits_pos p) as Hp.
    destruct (NilEmpty.string_of_uint (Pos.to_uint p)) as [|c r]; [discriminate|].
    simpl in Hd. apply andb_true_iff in Hd as [Hc _].
    destruct (is_digit_not_sign c Hc) as [-> ->]. exact Hp.
  - rewrite str_of_int_neg. unfold py_int.
    pose proof (string_of_uint_digits (Pos.to_uint p)) as Hd.
    rewrite strip_id.
    + simpl. rewrite parse_digits_pos. reflexivity.
    + simpl. eapply string_forall_impl; [apply is_digit_not_space|exact Hd].
Qed.

(** Decimal printing never produces an underscore. *)
Lemma str_of_int_no_underscore z : string_forall not_underscore (str_of_int z) = true.
Proof.
  assert (Hd : forall d, string_forall not_underscore (NilEmpty.string_of_uint d) = true).
  { intros d. eapply string_forall_impl; [|apply string_of_uint_digits].
    intros c Hc. unfold not_underscore. apply negb_true_iff, Ascii.eqb_neq.
    intros ->. discriminate Hc. }
  destruct z as [|p|p].
  - reflexivity.
  - rewrite str_of_int_pos. apply Hd.
  - rewrite str_of_int_neg. simpl. apply Hd.
Qed.

Lemma str_of_int_inj a b : str_of_int a = str_of_int b -> a = b.
Proof.
  intros H. apply (f_equal py_int) in H. rewrite !py_int_str_of_int in H. congruence.
Qed.

Lemma split_on_no_sep sep s :
  string_forall (fun c => negb (Ascii.eqb c sep)) s = true -> split_on sep s = [s].
Proof.
  induction s as [|c s IH]; simpl; [reflexivity|].
  rewrite andb_true_iff, negb_true_iff. intros [-> Hs]. rewrite (IH Hs). reflexivity.
Qed.


(** ** Dictionaries *)

Section DictFacts.
Context {V : Type}.
Implicit Types (d : dict V) (v : V).


Lemma dict_set_new k v d :
  ~ In k (dict_keys d) -> dict_set k v d = d ++ [(k, v)].
Proof.
  induction d as [|[k' v'] r IH]; simpl; intros H; [reflexivity|].
  destruct (String.eqb_spec k' k) as [->|Hn]; [tauto|].
  rewrite IH by tauto. reflexivity.
Qed.

Lemma dict_set_length k v d :
  (List.length (dict_set k v d) <= S (List.length d))%nat.
Proof.
  induction d as [|[k' v'] r IH]; simpl; [lia|].
  destruct (String.eqb k' k); simpl; lia.
Qed.

Lemma dict_set_keys_in k v d x :
  In x (dict_keys (dict_set k v d)) <-> x = k \/ In x (dict_keys d).
Proof.
  induction d as [|[k' v'] r IH]; simpl.
  - intuition congruence.
  - destruct (String.eqb_spec k' k) as [->|Hn]; simpl.
    + intuition congruence.
    + rewrite IH. intuition congruence.
Qed.

Lemma dict_set_wf k v d : dict_wf d -> dict_wf (dict_set k v d).
Proof.
  unfold dict_wf. induction d as [|[k' v'] r IH]; simpl; intros H.
  - constructor; [intros []|constructor].
  - inversion H as [|? ? Hni Hnd]; subst.
    destruct (String.eqb_spec k' k) as [->|Hn]; simpl.
    + constructor; assumption.
    + constructor; [|auto].
      fold (dict_keys (dict_set k v r)). rewrite dict_set_keys_in.
      intros [E|E]; [congruence|tauto].
Qed.

End DictFacts.

(** ** The registry *)

Lemma dict_get_In {V} k (v : V) d : dict_get k d = Some v -> In (k, v) d.
Proof.
  induction d as [|[k' v'] r IH]; simpl; [discriminate|].
  destruct (String.eqb_spec k' k) as [->|Hn].
  - intros [= ->]. auto.
  - auto.
Qed.

Lemma find_url_Some u d k e :
  find_url u d = Some (k, e) -> In (k, e) d /\ url e = u.
Proof.
  unfold find_url. intros H. apply find_some in H as [Hin He].
  simpl in He. apply String.eqb_eq in He. auto.
Qed.

Lemma find_url_None u d :
  find_url u d = None <-> (forall k e, In (k, e) d -> url e <> u).
Proof.
  unfold find_url. split.
  - intros H k e Hin. pose proof (find_none _ _ H _ Hin) as Hf.
    simpl in Hf. apply String.eqb_neq, Hf.
  - intros H. destruct (find _ d) as [[k e]|] eqn:E; [|reflexivity].
    apply find_some in E as [Hin He]. simpl in He.
    apply String.eqb_eq in He. exfalso. exact (H _ _ Hin He).
Qed.

Lemma find_url_dict_set u d k v :
  find_url u d = None -> url v = u ->
  find_url u (dict_set k v d) = Some (k, v).
Proof.
  unfold find_url.
  induction d as [|[k' v'] r IH]; simpl; intros Hn Hu.
  - rewrite Hu, String.eqb_refl. reflexivity.
  - destruct (String.eqb (url v') u) eqn:E; [discriminate|].
    destruct (String.eqb k' k); simpl.
    + rewrite Hu, String.eqb_refl. reflexivity.
    + rewrite E. auto.
Qed.

Lemma add_source_existing m source k e :
  find_url (url source) (source_registry m) = Some (k, e) ->
  add_source m source = (k, m).
Proof. intros H. unfold add_source. rewrite H. reflexivity. Qed.

Lemma add_source_new m source :
  find_url (url source) (source_registry m) = None ->
  add_source m source =
    (src_id (citation_counter m),
     mkManager (dict_set (src_id (citation_counter m)) source (source_registry m))
               (citation_counter m + 1) (url_to_id m)).
Proof. intros H. unfold add_source. rewrite H. reflexivity. Qed.

Lemma src_id_inj a b : src_id a = src_id b -> a = b.
Proof.
  unfold src_id. intros H. apply append_inv_head in H. apply str_of_int_inj, H.
Qed.

Lemma number_from_keys c l x :
  In x (dict_keys (number_from c l)) ->
  exists i, c <= i < c + Z.of_nat (List.length l) /\ x = src_id i.
Proof.
  revert c. induction l as [|s r IH]; simpl; intros c H; [tauto|].
  destruct H as [<-|H].
  - exists c. split; [lia|reflexivity].
  - destruct (IH _ H) as (i & Hi & ->). exists i. split; [lia|reflexivity].
Qed.

Lemma number_from_app c l1 l2 :
  number_from c (l1 ++ l2) =
  number_from c l1 ++ number_from (c + Z.of_nat (List.length l1)) l2.
Proof.
  revert c. induction l1 as [|s r IH]; simpl; intros c.
  - f_equal. lia.
  - rewrite IH. do 3 f_equal. lia.
Qed.

Lemma number_from_length c l : List.length (number_from c l) = List.length l.
Proof. revert c. induction l; simpl; intros; [reflexivity|]. f_equal. auto. Qed.

Lemma number_from_In c l k s :
  In (k, s) (number_from c l) -> In s l.
Proof.
  revert c. induction l as [|x r IH]; simpl; intros c H; [tauto|].
  destruct H as [[= _ <-]|H]; eauto.
Qed.

Lemma number_from_wf c l : dict_wf (number_from c l).
Proof.
  unfold dict_wf. revert c. induction l as [|s r IH]; simpl; intros c.
  - constructor.
  - constructor; [|apply IH].
    intros H. apply number_from_keys in H as (i & Hi & E).
    apply src_id_inj in E. lia.
Qed.

Lemma canonical_reset : canonical reset [].
Proof. repeat split. constructor. Qed.

Lemma canonical_find_None m l source :
  canonical m l ->
  find_url (url source) (source_registry m) = None <-> ~ In (url source) (map url l).
Proof.
  intros (Hr & _ & _). rewrite Hr, find_url_None. split.
  - intros H Hin. apply in_map_iff in Hin as (s & Hs & Hin).
    assert (Hk : exists k, In (k, s) (number_from 1 l)).
    { clear -Hin. generalize 1. induction l as [|x r IH]; simpl in *; intros c; [tauto|].
      destruct Hin as [->|Hin]; [eauto|]. destruct (IH Hin (c + 1)) as [k Hk]. eauto. }
    destruct Hk as [k Hk]. exact (H _ _ Hk Hs).
  - intros H k e Hin Hu. apply H. rewrite <- Hu.
    apply in_map. eapply number_from_In, Hin.
Qed.

Lemma canonical_add_new m l source :
  canonical m l ->
  find_url (url source) (source_registry m) = None ->
  canonical (snd (add_source m source)) (l ++ [source]).
Proof.
  intros Hc Hf. pose proof Hc as (Hr & Hn & Hd).
  rewrite (add_source_new _ _ Hf). unfold canonical.
  cbn [snd source_registry citation_counter]. repeat split.
  - rewrite dict_set_new.
    + rewrite Hr, number_from_app, Hn. reflexivity.
    + rewrite Hr. intros H. apply number_from_keys in H as (i & Hi & E).
      apply src_id_inj in E. lia.
  - rewrite length_app, Hn. cbn [List.length]. lia.
  - rewrite map_app. cbn [map]. apply NoDup_app.
    + exact Hd.
    + constructor; [intros []|constructor].
    + intros x Hx [<-|[]]. apply (canonical_find_None m l source Hc); assumption.
Qed.

Lemma reachable_canonical m : reachable m -> exists l, canonical m l.
Proof.
  induction 1 as [|m source Hm [l Hl]].
  - exists []. apply canonical_reset.
  - destruct (find_url (url source) (source_registry m)) as [[k e]|] eqn:E.
    + rewrite (add_source_existing _ _ _ _ E). eauto.
    + exists (l ++ [source]). apply canonical_add_new; assumption.
Qed.

(** ** Citation numbers *)

Lemma list_index_Some x l i :
  list_index x l = Some i ->
  nth_error l i = Some x /\ (forall j, (j < i)%nat -> nth_error l j <> Some x).
Proof.
  revert i. induction l as [|y r IH]; simpl; intros i; [discriminate|].
  destruct (String.eqb_spec y x) as [->|Hn].
  - intros [= <-]. split; [reflexivity|]. intros j Hj. lia.
  - destruct (list_index x r) as [i'|]; [|discriminate].
    intros [= <-]. destruct (IH _ eq_refl) as [H1 H2]. split; [exact H1|].
    intros [|j] Hj; simpl; [congruence|]. apply H2. lia.
Qed.

Lemma list_index_None x l : list_index x l = None <-> ~ In x l.
Proof.
  induction l as [|y r IH]; simpl; [tauto|].
  destruct (String.eqb_spec y x) as [->|Hn].
  - split; [discriminate|]. intros H. exfalso. auto.
  - destruct (list_index x r); simpl.
    + split; [discriminate|]. intros H. exfalso. apply H. right.
      destruct (in_dec string_dec x r) as [Hi|Hi]; [exact Hi|].
      apply IH in Hi. discriminate.
    + split; [|reflexivity]. intros _ [E|E]; [congruence|]. apply IH in E; auto.
Qed.

(** C9. [get_citation_number] is total.  For an identifier among the
    registry's keys it returns the 1-based position of the identifier in
    the keys' insertion order; for any other identifier it returns 0. *)
Theorem get_citation_number_position (m : CitationManager) (sid : string) :
  let keys := dict_keys (source_registry m) in
  let n := get_citation_number m sid in
  (In sid keys
   /\ 1 <= n <= Z.of_nat (List.length keys)
   /\ nth_error keys (Z.to_nat (n - 1)) = Some sid
   /\ (forall j, (j < Z.to_nat (n - 1))%nat -> nth_error keys j <> Some sid))
  \/ (~ In sid keys /\ n = 0).
Proof.
  cbv zeta. unfold get_citation_number.
  destruct (list_index sid (dict_keys (source_registry m))) as [i|] eqn:E.
  - left. destruct (list_index_Some _ _ _ E) as [H1 H2].
    replace (Z.to_nat (Z.of_nat i + 1 - 1)) with i by lia.
    repeat split; try assumption; try lia.
    + eapply nth_error_In, H1.
    + assert (i < List.length (dict_keys (source_registry m)))%nat
        by (apply nth_error_Some; congruence). lia.
  - right. split; [|reflexivity]. apply list_index_None, E.
Qed.

(** ** Adding sources *)

Lemma number_from_In_nth c l k s :
  In (k, s) (number_from c l) ->
  exists i, nth_error l i = Some s /\ k = src_id (c + Z.of_nat i).
Proof.
  revert c. induction l as [|x r IH]; simpl; intros c H; [tauto|].
  destruct H as [[= <- <-]|H].
  - exists O. split; [reflexivity|]. f_equal. lia.
  - destruct (IH _ H) as (i & Hi & ->). exists (S i). split; [exact Hi|].
    f_equal. lia.
Qed.

Lemma canonical_url_unique m l : canonical m l -> url_unique (source_registry m).
Proof.
  intros (Hr & _ & Hd) k1 k2 s1 s2 H1 H2 Hu. rewrite Hr in H1, H2.
  apply dict_get_In, number_from_In_nth in H1 as (i1 & N1 & ->).
  apply dict_get_In, number_from_In_nth in H2 as (i2 & N2 & ->).
  assert (i1 = i2) as ->; [|reflexivity].
  assert (L1 : (i1 < List.length (map url l))%nat)
    by (rewrite length_map; apply nth_error_Some; congruence).
  apply (proj1 (NoDup_nth_error (map url l)) Hd i1 i2 L1).
  rewrite !nth_error_map, N1, N2. simpl. congruence.
Qed.

Lemma add_source_twice m source :
  let r1 := add_source m source in
  let r2 := add_source (snd r1) source in
  fst r2 = fst r1 /\ snd r2 = snd r1.
Proof.
  cbv zeta.
  destruct (find_url (url source) (source_registry m)) as [[k e]|] eqn:E.
  - rewrite (add_source_existing _ _ _ _ E). simpl.
    rewrite (add_source_existing _ _ _ _ E). auto.
  - rewrite (add_source_new _ _ E). cbn [snd fst].
    erewrite add_source_existing; [split; reflexivity|].
    cbn [source_registry]. apply find_url_dict_set; [exact E|reflexivity].
Qed.

Lemma add_source_size m source :
  (List.length (source_registry (snd (add_source m source)))
   <= S (List.length (source_registry m)))%nat.
Proof.
  destruct (find_url (url source) (source_registry m)) as [[k e]|] eqn:E.
  - rewrite (add_source_existing _ _ _ _ E). simpl. lia.
  - rewrite (add_source_new _ _ E). cbn [snd source_registry]. apply dict_set_length.
Qed.

(** C3. When the registry already holds a source with the url of
    [source], [add_source] returns the identifier of such an entry and
    the manager is unchanged.  Called twice with the same source it
    returns the same identifier both times, the second call changes
    nothing, and the registry has grown by at most one entry.  In every
    reachable manager no two identifiers hold sources with the same url. *)
Theorem add_source_dedup (m : CitationManager) (source : Source) :
  (forall k e, In (k, e) (source_registry m) -> url e = url source ->
     exists k' e', In (k', e') (source_registry m) /\ url e' = url source
                   /\ add_source m source = (k', m))
  /\ (let r1 := add_source m source in
      let r2 := add_source (snd r1) source in
      fst r2 = fst r1 /\ snd r2 = snd r1
      /\ (List.length (source_registry (snd r2))
          <= List.length (source_registry m) + 1)%nat)
  /\ (reachable m -> url_unique (source_registry m)).
Proof.
  split; [|split].
  - intros k e Hin Hu.
    destruct (find_url (url source) (source_registry m)) as [[k' e']|] eqn:E.
    + exists k', e'. destruct (find_url_Some _ _ _ _ E) as [H1 H2].
      repeat split; try assumption. apply add_source_existing with e', E.
    + exfalso. exact (proj1 (find_url_None _ _) E _ _ Hin Hu).
  - cbv zeta. destruct (add_source_twice m source) as [H1 H2].
    repeat split; try assumption. rewrite H2.
    pose proof (add_source_size m source). lia.
  - intros Hr. destruct (reachable_canonical _ Hr) as [l Hl].
    eapply canonical_url_unique, Hl.
Qed.

Lemma add_source_dedup_witness :
  let m := snd (add_source reset (demo_source "A.com" "a.com" (1 # 2))) in
  add_source m (demo_source "A.com" "other" 0) = ("src_1", m)
  /\ url_unique (source_registry m).
Proof.
  cbv zeta.
  destruct (add_source_dedup
              (snd (add_source reset (demo_source "A.com" "a.com" (1 # 2))))
              (demo_source "A.com" "other" 0)) as (H1 & _ & H3).
  split.
  - destruct (H1 "src_1" (demo_source "A.com" "a.com" (1 # 2))) as (k' & e' & Hin & _ & E).
    + simpl. auto.
    + reflexivity.
    + rewrite E. simpl in Hin. destruct Hin as [[= <- _]|[]]. reflexivity.
  - apply H3. apply reachable_add, reachable_reset.
Defined.

Lemma add_all_canonical m l0 l :
  canonical m l0 -> NoDup (map url (l0 ++ l)) ->
  fst (add_all m l)
  = map src_id (map Z.of_nat (seq (1 + List.length l0) (List.length l)))
  /\ canonical (snd (add_all m l)) (l0 ++ l).
Proof.
  revert m l0. induction l as [|s r IH]; intros m l0 Hc Hd.
  - simpl. rewrite List.app_nil_r. auto.
  - assert (Hf : find_url (url s) (source_registry m) = None).
    { apply (canonical_find_None m l0 s Hc). rewrite map_app in Hd.
      simpl in Hd. apply NoDup_remove_2 in Hd. intros H. apply Hd.
      apply in_or_app. auto. }
    pose proof (canonical_add_new _ _ _ Hc Hf) as Hc'.
    cbn [add_all]. rewrite (add_source_new _ _ Hf) in *. cbn [snd] in Hc'.
    specialize (IH _ (l0 ++ [s]) Hc').
    rewrite <- List.app_assoc in IH. specialize (IH Hd).
    destruct (add_all _ r) as [ids m2]. cbn [fst snd] in *.
    destruct IH as [-> IH2]. split.
    + cbn [List.length seq map]. f_equal.
      * destruct Hc as (_ & -> & _). f_equal. lia.
      * rewrite length_app. cbn [List.length]. do 3 f_equal. lia.
    + exact IH2.
Qed.

(** C4. From a fresh (or reset) manager, adding sources with pairwise
    distinct urls returns [src_1], [src_2], ... in call order: the prefix
    followed by the integers from 1 upwards, all different.  In any
    reachable manager a source with a new url gets the integer that
    follows the number of stored sources, an identifier not yet in the
    registry.  [reset] empties the registry and puts the counter back to
    1, so that the next identifier is [src_1] again. *)
Theorem minted_identifiers :
  (forall l, NoDup (map url l) ->
     fst (add_all reset l)
     = map (fun k => "src_" +++ str_of_int k)
           (map Z.of_nat (seq 1 (List.length l)))
     /\ NoDup (fst (add_all reset l)))
  /\ (forall m s, reachable m ->
        find_url (url s) (source_registry m) = None ->
        fst (add_source m s)
        = "src_" +++ str_of_int (1 + Z.of_nat (List.length (source_registry m)))
        /\ ~ In (fst (add_source m s)) (dict_keys (source_registry m))
        /\ citation_counter (snd (add_source m s)) = citation_counter m + 1)
  /\ (source_registry reset = [] /\ citation_counter reset = 1
      /\ forall s, fst (add_source reset s) = "src_1").
Proof.
  split; [|split].
  - intros l Hd.
    destruct (add_all_canonical reset [] l canonical_reset Hd) as [H1 H2].
    split; [exact H1|]. rewrite H1.
    apply Finite.Injective_map_NoDup; [exact src_id_inj|].
    apply Finite.Injective_map_NoDup; [exact Nat2Z.inj|apply seq_NoDup].
  - intros m s Hr Hf. destruct (reachable_canonical _ Hr) as [l (Hreg & Hn & Hd)].
    rewrite (add_source_new _ _ Hf). cbn [fst snd citation_counter].
    rewrite Hn, Hreg, number_from_length. repeat split.
    intros H. apply number_from_keys in H as (i & Hi & E).
    apply src_id_inj in E. lia.
  - repeat split.
Qed.

Lemma minted_identifiers_witness :
  fst (add_all reset [demo_source "A.com" "a" 0; demo_source "B.com" "b" 0])
  = ["src_1"; "src_2"].
Proof.
  destruct minted_identifiers as (H & _ & _).
  destruct (H [demo_source "A.com" "a" 0; demo_source "B.com" "b" 0]) as [E _].
  - simpl. repeat constructor; simpl; intuition discriminate.
  - exact E.
Defined.

(** ** Confidence *)

Lemma py_min_le_r a b : (py_min a b <= b)%Q.
Proof.
  unfold py_min. destruct (Qle_bool a b) eqn:E.
  - apply Qle_bool_iff, E.
  - apply Qle_refl.
Qed.

Lemma py_min_ge a b c : (c <= a)%Q -> (c <= b)%Q -> (c <= py_min a b)%Q.
Proof. unfold py_min. destruct (Qle_bool a b); auto. Qed.

Lemma py_min_comp a a' b : (a == a')%Q -> (py_min a b == py_min a' b)%Q.
Proof.
  intros H. unfold py_min. rewrite (Qleb_comp _ _ H b b (Qeq_refl b)).
  destruct (Qle_bool a' b); [exact H|apply Qeq_refl].
Qed.

Lemma total_relevance_from m ids acc :
  (fold_left
     (fun acc sid =>
        match dict_get sid (source_registry m) with
        | Some s => (acc + relevance_score s)%Q
        | None => acc
        end) ids acc
   == acc + Qsum (present_scores m ids))%Q.
Proof.
  revert acc. induction ids as [|sid r IH]; intros acc; simpl.
  - ring.
  - rewrite IH. unfold Qsum, present_scores. simpl.
    destruct (dict_get sid (source_registry m)); simpl; [ring|reflexivity].
Qed.

Lemma total_relevance_sum m ids :
  (total_relevance m ids == Qsum (present_scores m ids))%Q.
Proof. unfold total_relevance. rewrite total_relevance_from. ring. Qed.


Lemma calculate_confidence_over_all m ids :
  (calculate_confidence m ids == confidence_over_all m ids)%Q.
Proof.
  destruct ids as [|sid r]; [reflexivity|].
  unfold calculate_confidence, confidence_over_all, Qlen.
  apply py_min_comp. rewrite total_relevance_sum. reflexivity.
Qed.




Lemma Qsum_nonneg l : Forall (fun q => 0 <= q)%Q l -> (0 <= Qsum l)%Q.
Proof.
  induction 1 as [|q r Hq _ IH]; simpl.
  - apply Qle_refl.
  - replace 0%Q with (0 + 0)%Q by reflexivity. apply Qplus_le_compat; assumption.
Qed.

Lemma present_scores_nonneg m ids :
  (forall sid s, In sid ids -> dict_get sid (source_registry m) = Some s ->
                 (0 <= relevance_score s)%Q) ->
  Forall (fun q => 0 <= q)%Q (present_scores m ids).
Proof.
  unfold present_scores. induction ids as [|sid r IH]; intros H; simpl.
  - constructor.
  - apply Forall_app. split.
    + destruct (dict_get sid (source_registry m)) as [s|] eqn:E; constructor.
      * apply (H sid s); [left; reflexivity|exact E].
      * constructor.
    + apply IH. intros x s Hx. apply H. right. exact Hx.
Qed.

(** C2, as the code has it.  [calculate_confidence] returns exactly 0
    for the empty list and never more than 1.  It is at least 0 when
    every identifier of the list that the registry holds has a
    non-negative [relevance_score]; the result is clamped from above
    only. *)
Theorem calculate_confidence_bounds (m : CitationManager) (ids : list string) :
  calculate_confidence m [] = 0%Q
  /\ (calculate_confidence m ids <= 1)%Q
  /\ ((forall sid s, In sid ids ->
         dict_get sid (source_registry m) = Some s ->
         (0 <= relevance_score s)%Q) ->
      (0 <= calculate_confidence m ids <= 1)%Q).
Proof.
  assert (Hle : (calculate_confidence m ids <= 1)%Q).
  { destruct ids as [|sid r]; [discriminate|]. apply py_min_le_r. }
  split; [reflexivity|]. split; [exact Hle|]. intros H. split; [|exact Hle].
  destruct ids as [|sid r]; [apply Qle_refl|].
  unfold calculate_confidence. apply py_min_ge; [|discriminate].
  rewrite total_relevance_sum. apply Qle_shift_div_l.
  - reflexivity.
  - rewrite Qmult_0_l. apply Qsum_nonneg, present_scores_nonneg, H.
Qed.

Lemma calculate_confidence_bounds_witness :
  (0 <= calculate_confidence (one_source (3 # 4)) ["src_1"] <= 1)%Q.
Proof.
  apply (calculate_confidence_bounds (one_source (3 # 4)) ["src_1"]).
  intros sid s [<-|[]] [= <-]. discriminate.
Defined.

(** C2, as the specification states it, fails: a stored source of
    score -1, cited alone, gives confidence -1. *)
Lemma confidence_lower_bound_counterexample :
  (calculate_confidence (one_source (-1)) ["src_1"] == -1)%Q
  /\ ~ (0 <= calculate_confidence (one_source (-1)) ["src_1"] <= 1)%Q.
Proof.
  split; [reflexivity|]. intros [H _]. apply H. reflexivity.
Qed.

(** ** The built-in sort *)

Section SortedFacts.
Context {A K : Type} (lt : K -> K -> bool) (key : A -> K) (reverse : bool).

Hypothesis lt_asym : forall a b, lt a b = true -> lt b a = false.
Hypothesis lt_negtrans :
  forall a b c, lt a b = false -> lt b c = false -> lt a c = false.

Local Abbreviation after := (goes_after lt key reverse).
Local Abbreviation insert := (sorted_insert lt key reverse).
Local Abbreviation sort := (py_sorted lt key reverse).

Local Abbreviation in_order := (in_order lt key reverse).

Lemma after_asym x y : after x y = true -> after y x = false.
Proof. unfold goes_after. destruct reverse; apply lt_asym. Qed.

Lemma in_order_trans x y z : in_order x y -> in_order y z -> in_order x z.
Proof.
  unfold in_order, goes_after. destruct reverse; intros H1 H2.
  - exact (lt_negtrans _ _ _ H1 H2).
  - exact (lt_negtrans _ _ _ H2 H1).
Qed.

Lemma sorted_insert_perm x l : Permutation (x :: l) (insert x l).
Proof.
  induction l as [|y ys IH]; simpl; [reflexivity|].
  destruct (after x y); [|reflexivity].
  rewrite perm_swap. constructor. exact IH.
Qed.

Lemma py_sorted_perm l : Permutation l (sort l).
Proof.
  induction l as [|x xs IH]; simpl; [constructor|].
  rewrite <- sorted_insert_perm. constructor. exact IH.
Qed.

Lemma sorted_insert_sorted x l :
  StronglySorted in_order l -> StronglySorted in_order (insert x l).
Proof.
  induction 1 as [|y ys Hs IH Hy]; simpl.
  - repeat constructor.
  - destruct (after x y) eqn:E.
    + constructor; [exact IH|].
      rewrite <- (sorted_insert_perm x ys). constructor; [|exact Hy].
      apply after_asym, E.
    + constructor; [constructor; assumption|].
      constructor; [exact E|].
      eapply Forall_impl; [|exact Hy]. intros z Hz.
      eapply in_order_trans; [exact E|exact Hz].
Qed.

Lemma py_sorted_sorted l : StronglySorted in_order (sort l).
Proof.
  induction l as [|x xs IH]; simpl; [constructor|].
  apply sorted_insert_sorted, IH.
Qed.

(** Stability: the elements whose key is tied with [k] come out in the
    order they came in. *)
Lemma sorted_insert_stable k x l :
  filter (fun y => key_tied lt k (key y)) (insert x l)
  = filter (fun y => key_tied lt k (key y)) (x :: l).
Proof.
  induction l as [|y ys IH]; [reflexivity|].
  cbn [sorted_insert]. destruct (after x y) eqn:E; [|reflexivity].
  cbn [filter] in *. rewrite IH.
  destruct (key_tied lt k (key x)) eqn:Ex; [|reflexivity].
  destruct (key_tied lt k (key y)) eqn:Ey; [|reflexivity].
  exfalso. unfold key_tied in Ex, Ey.
  rewrite andb_true_iff, !negb_true_iff in Ex, Ey.
  destruct Ex as [Ex1 Ex2], Ey as [Ey1 Ey2].
  unfold goes_after in E. destruct reverse.
  - rewrite (lt_negtrans _ _ _ Ex2 Ey1) in E. discriminate.
  - rewrite (lt_negtrans _ _ _ Ey2 Ex1) in E. discriminate.
Qed.

Lemma py_sorted_stable k l :
  filter (fun y => key_tied lt k (key y)) (sort l)
  = filter (fun y => key_tied lt k (key y)) l.
Proof.
  induction l as [|x xs IH]; [reflexivity|].
  cbn [py_sorted]. rewrite sorted_insert_stable. cbn [filter]. rewrite IH.
  reflexivity.
Qed.

(** A list already in order is returned as it is. *)
Lemma py_sorted_id l : StronglySorted in_order l -> sort l = l.
Proof.
  induction 1 as [|x xs Hs IH Hx]; [reflexivity|].
  cbn [py_sorted]. rewrite IH. destruct Hx as [|y ys Hy _]; [reflexivity|].
  cbn [sorted_insert]. rewrite Hy. reflexivity.
Qed.

End SortedFacts.

Lemma StronglySorted_impl {A} (R S : A -> A -> Prop) l :
  (forall a b, R a b -> S a b) -> StronglySorted R l -> StronglySorted S l.
Proof.
  intros HRS. induction 1 as [|x xs Hs IH Hx]; constructor; [exact IH|].
  eapply Forall_impl; [|exact Hx]. intros b. apply HRS.
Qed.

(** ** Ranking *)

Lemma Qlt_bool_iff a b : Qlt_bool a b = true <-> (a < b)%Q.
Proof.
  unfold Qlt_bool. rewrite negb_true_iff. split.
  - intros H. apply Qnot_le_lt. intros Hle. apply Qle_bool_iff in Hle. congruence.
  - intros H. destruct (Qle_bool b a) eqn:E; [|reflexivity].
    apply Qle_bool_iff in E. exfalso. exact (Qlt_not_le _ _ H E).
Qed.

Lemma Qlt_bool_false a b : Qlt_bool a b = false <-> (b <= a)%Q.
Proof.
  unfold Qlt_bool. rewrite negb_false_iff. apply Qle_bool_iff.
Qed.

Lemma Qlt_bool_asym a b : Qlt_bool a b = true -> Qlt_bool b a = false.
Proof.
  rewrite Qlt_bool_iff, Qlt_bool_false. apply Qlt_le_weak.
Qed.

Lemma Qlt_bool_negtrans a b c :
  Qlt_bool a b = false -> Qlt_bool b c = false -> Qlt_bool a c = false.
Proof.
  rewrite !Qlt_bool_false. intros H1 H2. eapply Qle_trans; eassumption.
Qed.

Lemma key_tied_Qeq a b : key_tied Qlt_bool a b = Qeq_bool b a.
Proof.
  unfold key_tied. destruct (Qeq_bool b a) eqn:E.
  - apply Qeq_bool_iff in E. apply andb_true_iff. rewrite !negb_true_iff.
    split; apply Qlt_bool_false; rewrite E; apply Qle_refl.
  - apply andb_false_iff. rewrite !negb_false_iff, !Qlt_bool_iff.
    destruct (Q_dec a b) as [[H|H]|H]; auto.
    exfalso. apply Qeq_bool_neq in E. apply E. symmetry. exact H.
Qed.

Lemma domain_weight_default d :
  ~ In d ["wikipedia.org"; "reddit.com"; "stackoverflow.com"; "github.com";
          "medium.com"] ->
  domain_weight d = double_of (5 # 10).
Proof.
  intros H. unfold domain_weight, domain_weights. cbn [dict_get].
  repeat match goal with
  | |- context [String.eqb ?k d] =>
      let E := fresh "E" in
      destruct (String.eqb_spec k d) as [E|E];
        [exfalso; apply H; rewrite <- E; simpl; tauto|]
  end.
  reflexivity.
Qed.

Lemma rescore_loop sources : forall (h : store) (r : ref),
  fold_left rescore_step sources h r
  = Nat.iter (count_occ Nat.eq_dec sources r) rescore (h r).
Proof.
  induction sources as [|x l IH]; intros h r; [reflexivity|].
  cbn [fold_left count_occ]. rewrite IH. unfold rescore_step, store_set.
  destruct (Nat.eq_dec x r) as [->|Hn].
  - rewrite Nat.eqb_refl. symmetry. apply Nat.iter_succ_r.
  - destruct (Nat.eqb_spec r x) as [E|E]; [congruence|reflexivity].
Qed.

(** The doubles that the literals of [rank_sources] and of the examples
    denote, as fractions over a power of two.  [0.5] and [0.75] are
    doubles; the others are rounded. *)
Example double_of_literals :
  (double_of (9 # 10) == 8106479329266893 # 9007199254740992)%Q
  /\ (double_of (8 # 10) == 7205759403792794 # 9007199254740992)%Q
  /\ (double_of (7 # 10) == 6305039478318694 # 9007199254740992)%Q
  /\ (double_of (5 # 10) == 1 # 2)%Q
  /\ (double_of (6 # 10) == 5404319552844595 # 9007199254740992)%Q
  /\ (double_of (55 # 100) == 4953959590107546 # 9007199254740992)%Q
  /\ (double_of (75 # 100) == 3 # 4)%Q
  /\ (double_of (1 # 10) == 7205759403792794 # 72057594037927936)%Q
  /\ (double_of (3 # 10) == 5404319552844595 # 18014398509481984)%Q.
Proof. repeat split; vm_compute; reflexivity. Qed.

(** Sums and quotients round: [0.1 + 0.2] is [0.30000000000000004], not
    the double [0.3]; halving is exact. *)
Example float_arithmetic_rounds :
  (float_add (double_of (1 # 10)) (double_of (2 # 10))
   == 5404319552844596 # 18014398509481984)%Q
  /\ ~ (float_add (double_of (1 # 10)) (double_of (2 # 10)) == double_of (3 # 10))%Q
  /\ (float_div (double_of (3 # 10)) 2 == double_of (15 # 100))%Q
  /\ (float_div 1 3 == 6004799503160661 # 18014398509481984)%Q.
Proof.
  repeat split; try (vm_compute; reflexivity).
  intros H. vm_compute in H. discriminate H.
Qed.

(** C5, as the code has it.  [rank_sources] takes the elements of its
    argument in turn and replaces the [relevance_score] of each, in
    place, by [(relevance_score + domain_weight) / 2] computed in double
    precision, the weight being 0.9 for wikipedia.org, 0.7 for
    reddit.com, 0.8 for stackoverflow.com and github.com, 0.7 for
    medium.com, and 0.5 for any other domain.  A source object that
    stands [k] times in the list is rewritten [k] times: one that stands
    once ends with the rounded mean of its original score and its weight,
    and one that is not in the list is left alone.  The list returned
    holds the same elements in descending order of the new score,
    elements with equal scores in the order of the argument.  For
    wikipedia.org and unknown.xyz, both of score 0.6, the new scores are
    0.75 and 0.55 and the wikipedia source comes first, whichever came
    first in the argument. *)
Theorem rank_sources_order (h : store) (sources : list ref) (query : string) :
  let h' := fst (rank_sources h sources query) in
  let ranked := snd (rank_sources h sources query) in
  h' = fold_left
         (fun h r =>
            store_set h r
              (with_score (h r)
                 (float_div
                    (float_add (relevance_score (h r)) (domain_weight (domain (h r))))
                    2)))
         sources h
  /\ (forall r, h' r = Nat.iter (count_occ Nat.eq_dec sources r) rescore (h r))
  /\ (forall r, count_occ Nat.eq_dec sources r = 1%nat ->
        h' r = with_score (h r)
                 (float_div
                    (float_add (relevance_score (h r)) (domain_weight (domain (h r))))
                    2))
  /\ (forall r, ~ In r sources -> h' r = h r)
  /\ (domain_weight "wikipedia.org" = double_of (9 # 10)
      /\ domain_weight "reddit.com" = double_of (7 # 10)
      /\ domain_weight "stackoverflow.com" = double_of (8 # 10)
      /\ domain_weight "github.com" = double_of (8 # 10)
      /\ domain_weight "medium.com" = double_of (7 # 10)
      /\ forall d,
           ~ In d ["wikipedia.org"; "reddit.com"; "stackoverflow.com";
                   "github.com"; "medium.com"] ->
           domain_weight d = double_of (5 # 10))
  /\ Permutation sources ranked
  /\ StronglySorted
       (fun a b => (relevance_score (h' b) <= relevance_score (h' a))%Q) ranked
  /\ (forall q,
        filter (fun r => Qeq_bool (relevance_score (h' r)) q) ranked
        = filter (fun r => Qeq_bool (relevance_score (h' r)) q) sources)
  /\ (forall l, l = [0; 1]%nat \/ l = [1; 0]%nat ->
        let h1 := fst (rank_sources demo_store l query) in
        snd (rank_sources demo_store l query) = [0; 1]%nat
        /\ domain (h1 0%nat) = "wikipedia.org"
        /\ (relevance_score (h1 0%nat) == 75 # 100)%Q
        /\ domain (h1 1%nat) = "unknown.xyz"
        /\ (relevance_score (h1 1%nat) == double_of (55 # 100))%Q).
Proof.
  cbv zeta. unfold rank_sources. cbn [fst snd].
  repeat apply conj.
  - reflexivity.
  - intros r. change (fold_left _ sources h) with (fold_left rescore_step sources h).
    apply rescore_loop.
  - intros r Hr. change (fold_left _ sources h) with (fold_left rescore_step sources h).
    rewrite rescore_loop, Hr. reflexivity.
  - intros r Hr. change (fold_left _ sources h) with (fold_left rescore_step sources h).
    rewrite rescore_loop.
    rewrite (proj1 (count_occ_not_In Nat.eq_dec sources r) Hr). reflexivity.
  - reflexivity.
  - reflexivity.
  - reflexivity.
  - reflexivity.
  - reflexivity.
  - exact domain_weight_default.
  - apply py_sorted_perm.
  - eapply StronglySorted_impl;
      [|apply (py_sorted_sorted Qlt_bool
                 (fun x => relevance_score (fold_left rescore_step sources h x)) true);
        [exact Qlt_bool_asym|exact Qlt_bool_negtrans]].
    intros a b H. unfold in_order, goes_after in H. apply Qlt_bool_false, H.
  - intros q.
    pose proof (py_sorted_stable Qlt_bool
                  (fun x => relevance_score (fold_left rescore_step sources h x))
                  true Qlt_bool_negtrans q sources) as H.
    assert (E : forall l,
               filter (fun r => Qeq_bool
                          (relevance_score (fold_left rescore_step sources h r)) q) l
               = filter (fun y => key_tied Qlt_bool q
                          (relevance_score (fold_left rescore_step sources h y))) l).
    { intros l. apply filter_ext. intros s. symmetry. apply key_tied_Qeq. }
    rewrite !E. exact H.
  - intros l [->| ->]; repeat split; vm_compute; reflexivity.
Qed.

Lemma rank_sources_order_witness :
  domain_weight "example.com" = double_of (5 # 10)
  /\ fst (rank_sources demo_store [1; 0]%nat "q") 1%nat
     = with_score (demo_store 1%nat)
         (float_div (float_add (double_of (6 # 10)) (double_of (5 # 10))) 2)
  /\ fst (rank_sources demo_store [1; 0]%nat "q") 2%nat = demo_store 2%nat
  /\ snd (rank_sources demo_store [1; 0]%nat "q") = [0; 1]%nat.
Proof.
  destruct (rank_sources_order demo_store [1; 0]%nat "q")
    as (_ & _ & H1 & H0 & (_ & _ & _ & _ & _ & Hd) & _ & _ & _ & Hs).
  split; [|split; [|split]].
  - apply Hd. simpl. intuition discriminate.
  - rewrite H1; reflexivity.
  - apply H0. simpl. intuition discriminate.
  - apply (Hs [1; 0]%nat). right. reflexivity.
Defined.

(** C5, as the specification states it, fails: the loop takes the list
    as it is, and a source object that stands twice in it is rewritten
    twice.  The wikipedia.org source of score 0.6, listed twice, ends
    with 0.825 where the mean of its original score and its weight is
    0.75. *)
Lemma rank_sources_twice_counterexample :
  let h' := fst (rank_sources demo_store [0; 0]%nat "q") in
  (float_div
     (float_add (relevance_score (demo_store 0%nat))
                (domain_weight (domain (demo_store 0%nat)))) 2 == 75 # 100)%Q
  /\ (relevance_score (h' 0%nat) == double_of (825 # 1000))%Q
  /\ ~ (relevance_score (h' 0%nat)
        == float_div
             (float_add (relevance_score (demo_store 0%nat))
                        (domain_weight (domain (demo_store 0%nat)))) 2)%Q.
Proof.
  cbv zeta. split; [vm_compute; reflexivity|]. split; [vm_compute; reflexivity|].
  intros H. vm_compute in H. discriminate H.
Qed.

(** Rounding decides the order.  A reddit.com source of score 0.1 and a
    source of score 0.3 on a domain outside the table both have the exact
    mean 0.4; in double precision the first gets 0.39999999999999997 and
    the second 0.4, so the second is ranked first. *)
Example rank_sources_rounding :
  let h' := fst (rank_sources close_store [0; 1]%nat "q") in
  (relevance_score (h' 0%nat) == 7205759403792793 # 18014398509481984)%Q
  /\ (relevance_score (h' 1%nat) == double_of (4 # 10))%Q
  /\ (relevance_score (h' 0%nat) < relevance_score (h' 1%nat))%Q
  /\ snd (rank_sources close_store [0; 1]%nat "q") = [1; 0]%nat.
Proof. cbv zeta. repeat split; vm_compute; reflexivity. Qed.

(** ** The bibliography *)

Lemma key_lt_asym a b : key_lt a b = true -> key_lt b a = false.
Proof.
  destruct a as [x|], b as [y|]; simpl; try reflexivity; try discriminate.
  rewrite Z.ltb_lt, Z.ltb_ge. lia.
Qed.

Lemma key_lt_negtrans a b c :
  key_lt a b = false -> key_lt b c = false -> key_lt a c = false.
Proof.
  destruct a as [x|], b as [y|], c as [z|]; simpl; try reflexivity; try discriminate.
  rewrite !Z.ltb_ge. lia.
Qed.

Lemma key_lt_false_le a b : key_lt b a = false <-> key_le a b.
Proof.
  destruct a as [x|], b as [y|]; simpl; try tauto.
  - apply Z.ltb_ge.
  - split; [discriminate|tauto].
Qed.

Lemma split_on_append sep p r :
  string_forall (fun c => negb (Ascii.eqb c sep)) p = true ->
  split_on sep (p +++ String sep r) = p :: split_on sep r.
Proof.
  induction p as [|c p IH]; simpl.
  - rewrite Ascii.eqb_refl. reflexivity.
  - rewrite andb_true_iff, negb_true_iff. intros [-> Hp]. rewrite (IH Hp). reflexivity.
Qed.

(** The key of an identifier [prefix_N], the prefix free of ['_']. *)
Lemma get_id_number_prefixed p n s :
  string_forall not_underscore p = true ->
  get_id_number (p +++ "_" +++ str_of_int n, s) = Some n.
Proof.
  intros Hp. unfold get_id_number. cbn [fst].
  change ("_" +++ str_of_int n) with (String "_" (str_of_int n)).
  rewrite (split_on_append "_" p _ Hp).
  rewrite (split_on_no_sep "_" _ (str_of_int_no_underscore n)).
  cbn [nth_error]. apply py_int_str_of_int.
Qed.

(** The key reads the field between the first and the second ['_']. *)
Lemma get_id_number_field p x s :
  string_forall not_underscore p = true ->
  get_id_number (p +++ "_" +++ x, s) = py_int (hd "" (split_on "_" x)).
Proof.
  intros Hp. unfold get_id_number. cbn [fst].
  change ("_" +++ x) with (String "_" x).
  rewrite (split_on_append "_" p _ Hp). cbn [nth_error].
  destruct x as [|c r]; [reflexivity|]. cbn [split_on].
  destruct (Ascii.eqb c "_"); [reflexivity|].
  destruct (split_on "_" r); reflexivity.
Qed.

Lemma get_id_number_src_id n s : get_id_number (src_id n, s) = Some n.
Proof. exact (get_id_number_prefixed "src" n s eq_refl). Qed.

Lemma get_id_number_no_underscore k s :
  string_forall not_underscore k = true -> get_id_number (k, s) = None.
Proof.
  intros Hk. unfold get_id_number. cbn [fst].
  rewrite (split_on_no_sep "_" _ Hk). reflexivity.
Qed.

Lemma number_rows_fst c l :
  map fst (number_rows c l)
  = map (fun i => c + Z.of_nat i) (seq 0 (List.length l)).
Proof.
  revert c. induction l as [|x r IH]; intros c; [reflexivity|].
  cbn [number_rows map List.length seq fst]. f_equal; [lia|].
  rewrite IH, <- seq_shift, map_map. apply map_ext. intros i. lia.
Qed.

Lemma number_rows_length c l : List.length (number_rows c l) = List.length l.
Proof. revert c. induction l; intros; simpl; [reflexivity|]. f_equal. auto. Qed.

Lemma number_rows_snd c l : map snd (number_rows c l) = l.
Proof. revert c. induction l; intros; simpl; [reflexivity|]. f_equal. auto. Qed.

Lemma render_rows_app a b : render_rows (a ++ b) = render_rows a +++ render_rows b.
Proof.
  induction a as [|[n [k s]] r IH]; [reflexivity|].
  cbn [app render_rows]. rewrite IH, !append_assoc. reflexivity.
Qed.

Lemma render_rows_one n item :
  render_rows [(n, item)] = source_row n (snd item).
Proof.
  destruct item as [k s]. reflexivity.
Qed.

(** The loop that builds the text and the loop that records the rows
    take the same turns. *)
Lemma loops_agree l : forall t rows seen c,
  fold_left sources_step l (t +++ render_rows rows, seen, c)
  = let '(rows', seen', c') := fold_left rows_step l (rows, seen, c) in
    (t +++ render_rows rows', seen', c').
Proof.
  induction l as [|item r IH]; intros t rows seen c; [reflexivity|].
  cbn [fold_left]. unfold sources_step at 2, rows_step at 2.
  destruct (negb (str_mem (url (snd item)) seen) && (c <? 10)).
  - rewrite <- IH. f_equal.
    rewrite render_rows_app, render_rows_one, append_assoc. reflexivity.
  - apply IH.
Qed.

(** The loop keeps the first ten entries with a new url and numbers them
    from the count on. *)
Lemma rows_loop l : forall rows seen c,
  0 <= c <= 10 ->
  fst (fst (fold_left rows_step l (rows, seen, c)))
  = rows ++ number_rows (c + 1)
              (firstn (Z.to_nat (10 - c)) (dedup_urls seen l)).
Proof.
  induction l as [|item r IH]; intros rows seen c Hc.
  - cbn. rewrite firstn_nil. cbn. rewrite List.app_nil_r. reflexivity.
  - cbn [fold_left dedup_urls]. unfold rows_step at 2.
    destruct (str_mem (url (snd item)) seen) eqn:Em; cbn [negb andb].
    + apply IH, Hc.
    + destruct (Z.ltb_spec c 10) as [Hlt|Hge].
      * rewrite IH by lia.
        replace (Z.to_nat (10 - c)) with (S (Z.to_nat (10 - (c + 1)))) by lia.
        cbn [firstn number_rows]. rewrite <- List.app_assoc. reflexivity.
      * replace (Z.to_nat (10 - c)) with O by lia.
        rewrite IH by lia.
        replace (Z.to_nat (10 - c)) with O by lia. reflexivity.
Qed.

Lemma bibliography_rows_eq m :
  bibliography_rows m = number_rows 1 (firstn 10 (dedup_urls [] (sorted_sources m))).
Proof.
  unfold bibliography_rows.
  pose proof (rows_loop (sorted_sources m) [] [] 0 ltac:(lia)) as H.
  destruct (fold_left rows_step (sorted_sources m) ([], [], 0)) as [[rows seen] c].
  exact H.
Qed.

Lemma format_sources_list_rows m :
  format_sources_list m = sources_header +++ render_rows (bibliography_rows m).
Proof.
  unfold format_sources_list, bibliography_rows.
  pose proof (loops_agree (sorted_sources m) sources_header [] [] 0) as H.
  cbn [render_rows] in H. rewrite append_nil_r in H. rewrite H.
  destruct (fold_left rows_step (sorted_sources m) ([], [], 0)) as [[rows seen] c].
  reflexivity.
Qed.

Lemma str_mem_In x l : str_mem x l = true <-> In x l.
Proof.
  unfold str_mem. rewrite existsb_exists. split.
  - intros (y & Hy & E). apply String.eqb_eq in E. subst. exact Hy.
  - intros H. exists x. split; [exact H|apply String.eqb_refl].
Qed.

Lemma dedup_urls_NoDup seen l :
  NoDup (map entry_url l) ->
  (forall x, In x (map entry_url l) -> ~ In x seen) ->
  dedup_urls seen l = l.
Proof.
  revert seen. induction l as [|item r IH]; intros seen Hd Hs; [reflexivity|].
  cbn [dedup_urls]. cbn [map] in Hd, Hs. inversion Hd as [|? ? Hni Hd']; subst.
  destruct (str_mem (url (snd item)) seen) eqn:E.
  - apply str_mem_In in E. exfalso. apply (Hs (entry_url item)); [left; reflexivity|exact E].
  - f_equal. apply IH; [exact Hd'|].
    intros x Hx [<-|Hin]; [exact (Hni Hx)|]. apply (Hs x); [right; exact Hx|exact Hin].
Qed.

Lemma sorted_sources_perm m : Permutation (source_registry m) (sorted_sources m).
Proof. apply py_sorted_perm. Qed.

Lemma bibliography_rows_numbers m :
  map fst (bibliography_rows m)
  = map Z.of_nat (seq 1 (List.length (bibliography_rows m))).
Proof.
  rewrite bibliography_rows_eq, number_rows_fst, number_rows_length.
  rewrite <- seq_shift, map_map. apply map_ext. intros i. lia.
Qed.

Lemma bibliography_rows_unique_urls m :
  NoDup (map entry_url (source_registry m)) ->
  bibliography_rows m = number_rows 1 (firstn 10 (sorted_sources m)).
Proof.
  intros Hd. rewrite bibliography_rows_eq, dedup_urls_NoDup; [reflexivity| |].
  - eapply Permutation_NoDup; [|exact Hd].
    apply Permutation_map, sorted_sources_perm.
  - intros x _ [].
Qed.

(** C6, as the code has it.  [format_sources_list] never fails.  It
    orders the entries of the registry by the integer read from the field
    between the first and the second underscore of the identifier (for
    [prefix_N] with no underscore in the prefix, so for every [src_N],
    that is the suffix [N]), entries with equal keys in insertion order
    and entries whose identifier has no such field, or no integer in it,
    last;
    it drops every entry whose url an earlier entry has, keeps the first
    ten of the rest and numbers them 1, 2, ...; the text is the header
    followed by one line [N. [title](url) - domain] per row.  A registry
    of at least ten sources with pairwise distinct urls, fifteen say,
    gives exactly the rows 1 to 10. *)
Theorem format_sources_list_bibliography (m : CitationManager) :
  let sorted := sorted_sources m in
  let rows := bibliography_rows m in
  Permutation (source_registry m) sorted
  /\ StronglySorted
       (fun a b => key_le (get_id_number a) (get_id_number b)) sorted
  /\ (forall k,
        filter (fun e => key_tied key_lt k (get_id_number e)) sorted
        = filter (fun e => key_tied key_lt k (get_id_number e)) (source_registry m))
  /\ (forall p n s, string_forall not_underscore p = true ->
        get_id_number (p +++ "_" +++ str_of_int n, s) = Some n)
  /\ (forall k s, string_forall not_underscore k = true ->
        get_id_number (k, s) = None)
  /\ (forall p x s, string_forall not_underscore p = true ->
        get_id_number (p +++ "_" +++ x, s) = py_int (hd "" (split_on "_" x)))
  /\ rows = number_rows 1 (firstn 10 (dedup_urls [] sorted))
  /\ map fst rows = map Z.of_nat (seq 1 (List.length rows))
  /\ (List.length rows <= 10)%nat
  /\ format_sources_list m = sources_header +++ render_rows rows
  /\ (NoDup (map entry_url (source_registry m)) ->
      (10 <= List.length (source_registry m))%nat ->
      map fst rows = [1; 2; 3; 4; 5; 6; 7; 8; 9; 10]
      /\ map snd rows = firstn 10 sorted).
Proof.
  cbv zeta. repeat apply conj.
  - apply sorted_sources_perm.
  - eapply StronglySorted_impl;
      [|apply (py_sorted_sorted key_lt get_id_number false);
        [exact key_lt_asym|exact key_lt_negtrans]].
    intros a b H. apply key_lt_false_le, H.
  - intros k. apply (py_sorted_stable key_lt get_id_number false key_lt_negtrans).
  - exact get_id_number_prefixed.
  - exact get_id_number_no_underscore.
  - exact get_id_number_field.
  - apply bibliography_rows_eq.
  - apply bibliography_rows_numbers.
  - rewrite bibliography_rows_eq, number_rows_length, length_firstn. lia.
  - apply format_sources_list_rows.
  - intros Hd Hl. rewrite (bibliography_rows_unique_urls _ Hd).
    rewrite number_rows_snd. split; [|reflexivity].
    rewrite number_rows_fst, length_firstn.
    rewrite <- (Permutation_length (sorted_sources_perm m)).
    replace (Nat.min 10 (List.length (source_registry m))) with 10%nat by lia.
    reflexivity.
Qed.

Lemma format_sources_list_bibliography_witness :
  map fst (bibliography_rows fifteen) = [1; 2; 3; 4; 5; 6; 7; 8; 9; 10]
  /\ get_id_number ("src_12", demo_source "u" "d" 0) = Some 12
  /\ get_id_number ("src", demo_source "u" "d" 0) = None.
Proof.
  destruct (format_sources_list_bibliography fifteen)
    as (_ & _ & _ & Hp & Hn & _ & _ & _ & _ & _ & H15).
  split; [|split].
  - apply H15.
    + vm_compute. repeat constructor; simpl; intuition discriminate.
    + vm_compute. lia.
  - apply (Hp "src" 12). reflexivity.
  - apply Hn. reflexivity.
Defined.

(** C6, as the specification states it, fails: the key is read from the
    second field of the identifier, not from its end.  In a registry
    holding [src_7], [src_3_x] and [a_b_3] the code reads 3 from
    [src_3_x], which has no numeric suffix, and puts it first; it reads
    nothing from [a_b_3], whose numeric suffix is 3, and puts it last.
    The rows are not in the order of the numeric suffixes. *)
Lemma bibliography_suffix_counterexample :
  map fst (source_registry by_hand) = ["src_7"; "src_3_x"; "a_b_3"]
  /\ map get_id_number (source_registry by_hand) = [Some 7; Some 3; None]
  /\ map (fun item => numeric_suffix (fst item)) (source_registry by_hand)
     = [Some 7; None; Some 3]
  /\ map fst (sorted_sources by_hand) = ["src_3_x"; "src_7"; "a_b_3"]
  /\ map fst (sorted_by_suffix by_hand) = ["a_b_3"; "src_7"; "src_3_x"]
  /\ map (fun row => (fst row, fst (snd row))) (bibliography_rows by_hand)
     = [(1, "src_3_x"); (2, "src_7"); (3, "a_b_3")]
  /\ format_sources_list by_hand
     = sources_header
       +++ source_row 1 (mkSource "src_3_x" "https://example.org/3x" "src_3_x" ""
                                  "example.org" 0 (1 # 2))
       +++ source_row 2 (mkSource "src_7" "https://example.org/7" "src_7" ""
                                  "example.org" 0 (1 # 2))
       +++ source_row 3 (mkSource "a_b_3" "https://example.org/ab3" "a_b_3" ""
                                  "example.org" 0 (1 # 2))
  /\ format_sources_list by_hand
     <> sources_header
        +++ render_rows (number_rows 1 (firstn 10 (dedup_urls [] (sorted_by_suffix by_hand))))
  /\ ~ StronglySorted
         (fun a b => key_le (numeric_suffix (fst a)) (numeric_suffix (fst b)))
         (sorted_sources by_hand).
Proof.
  repeat apply conj; try (vm_compute; reflexivity).
  - vm_compute. discriminate.
  - intros H. vm_compute in H. inversion H as [|? ? _ HF]. subst.
    inversion HF as [|? ? HF1 _]. exact HF1.
Qed.

(** ** Citation numbers and bibliography rows *)

Lemma number_from_sorted c l :
  StronglySorted (in_order key_lt get_id_number false) (number_from c l).
Proof.
  revert c. induction l as [|s r IH]; intros c; cbn [number_from]; constructor.
  - apply IH.
  - apply Forall_forall. intros [k e] Hin.
    apply number_from_In_nth in Hin as (i & _ & ->).
    unfold in_order, goes_after. rewrite !get_id_number_src_id. cbn [key_lt].
    apply Z.ltb_ge. lia.
Qed.

Lemma number_from_urls c l : map entry_url (number_from c l) = map url l.
Proof. revert c. induction l; intros; simpl; [reflexivity|]. f_equal. auto. Qed.

Lemma number_from_firstn k c l :
  firstn k (number_from c l) = number_from c (firstn k l).
Proof.
  revert c l. induction k as [|k IH]; intros c [|s r]; try reflexivity.
  cbn [firstn number_from]. f_equal. apply IH.
Qed.

Lemma number_rows_number_from c l n sid s :
  In (n, (sid, s)) (number_rows c (number_from c l)) ->
  exists i, (i < List.length l)%nat /\ n = c + Z.of_nat i /\ sid = src_id n.
Proof.
  revert c. induction l as [|x r IH]; intros c; cbn [number_from number_rows]; [intros []|].
  intros [[= <- <- <-]|H].
  - exists O. simpl. split; [lia|]. split; [lia|reflexivity].
  - destruct (IH _ H) as (i & Hi & -> & ->). exists (S i). simpl.
    split; [lia|]. split; [lia|reflexivity].
Qed.

Lemma list_index_number_from c l i :
  (i < List.length l)%nat ->
  list_index (src_id (c + Z.of_nat i)) (dict_keys (number_from c l)) = Some i.
Proof.
  revert c i. induction l as [|s r IH]; intros c i Hi; [simpl in Hi; lia|].
  cbn [number_from dict_keys map fst list_index].
  destruct (String.eqb_spec (src_id c) (src_id (c + Z.of_nat i))) as [E|E].
  - apply src_id_inj in E. f_equal. lia.
  - destruct i as [|i]; [exfalso; apply E; f_equal; lia|].
    replace (c + Z.of_nat (S i)) with (c + 1 + Z.of_nat i) by lia.
    fold (dict_keys (number_from (c + 1) r)).
    rewrite IH by (simpl in Hi; lia). reflexivity.
Qed.

Lemma reachable_add_all m l : reachable m -> reachable (snd (add_all m l)).
Proof.
  revert m. induction l as [|s r IH]; intros m Hm; [exact Hm|].
  cbn [add_all]. pose proof (reachable_add m s Hm) as H1.
  destruct (add_source m s) as [i m1]. specialize (IH m1 H1).
  destruct (add_all m1 r) as [ids m2]. exact IH.
Qed.

(** C8. In every manager reachable from [reset] by [add_source], an
    entry that has a row in the bibliography has, as its citation
    number, the number of that row. *)
Theorem citation_number_matches_row (m : CitationManager)
  (n : Z) (sid : string) (s : Source) :
  reachable m ->
  In (n, (sid, s)) (bibliography_rows m) ->
  get_citation_number m sid = n.
Proof.
  intros Hr Hin. destruct (reachable_canonical _ Hr) as [l (Hreg & Hn & Hd)].
  rewrite bibliography_rows_unique_urls in Hin
    by (rewrite Hreg, number_from_urls; exact Hd).
  unfold sorted_sources in Hin.
  rewrite Hreg, (py_sorted_id _ _ _ _ (number_from_sorted 1 l)) in Hin.
  rewrite number_from_firstn in Hin.
  apply number_rows_number_from in Hin as (i & Hi & -> & ->).
  unfold get_citation_number. rewrite Hreg, list_index_number_from.
  - lia.
  - rewrite length_firstn in Hi. lia.
Qed.

Lemma citation_number_matches_row_witness :
  get_citation_number fifteen "src_7" = 7.
Proof.
  apply (citation_number_matches_row fifteen 7 "src_7"
           (demo_source "https://example.org/7" "example.org" (1 # 2))).
  - apply reachable_add_all, reachable_reset.
  - vm_compute. tauto.
Defined.

(** ** Sentences *)

Lemma split_from_nonempty b s : split_from b s <> [].
Proof.
  revert b. induction s as [|c r IH]; intros b; cbn [split_from]; [discriminate|].
  destruct (b && is_space c); [apply IH|].
  destruct (is_terminator c && starts_with_space r); [discriminate|].
  pose proof (IH false). destruct (split_from false r); [congruence|discriminate].
Qed.

Lemma join_cons_head sep c l :
  l <> [] -> join sep (cons_head c l) = String c (join sep l).
Proof. destruct l as [|p [|q r]]; [congruence|reflexivity..]. Qed.

Lemma join_cons sep p l : l <> [] -> join sep (p :: l) = p +++ sep +++ join sep l.
Proof. destruct l; [congruence|reflexivity]. Qed.

Lemma append_last_cons p l c : l <> [] -> append_last (p :: l) c = p :: append_last l c.
Proof. destruct l; [congruence|reflexivity]. Qed.

Lemma append_last_cons_head x l c :
  l <> [] -> append_last (cons_head x l) c = cons_head x (append_last l c).
Proof. destruct l as [|p [|q r]]; [congruence|reflexivity..]. Qed.

Lemma append_last_nonempty l c : l <> [] -> append_last l c <> [].
Proof. destruct l as [|p [|q r]]; [congruence|discriminate..]. Qed.

Lemma join_append_last sep l c :
  l <> [] -> join sep (append_last l c) = join sep l +++ c.
Proof.
  induction l as [|p r IH]; [congruence|]. intros _.
  destruct r as [|q r]; [reflexivity|].
  rewrite append_last_cons by discriminate.
  rewrite !join_cons by (try apply append_last_nonempty; discriminate).
  rewrite IH by discriminate. rewrite !append_assoc. reflexivity.
Qed.

Lemma no_space_starts s : no_space s = true -> starts_with_space s = false.
Proof.
  destruct s as [|c r]; [reflexivity|]. unfold no_space. simpl.
  rewrite andb_true_iff, negb_true_iff. tauto.
Qed.

Lemma split_from_no_space b s : no_space s = true -> split_from b s = [s].
Proof.
  unfold no_space. revert b. induction s as [|c r IH]; intros b; [reflexivity|].
  cbn [string_forall split_from]. rewrite andb_true_iff, negb_true_iff.
  intros [Hc Hr]. rewrite Hc, andb_false_r.
  rewrite (no_space_starts r Hr), andb_false_r, (IH false Hr). reflexivity.
Qed.

(** The scan does not care whether it is inside a match when the text
    does not start with white space. *)
Lemma split_from_true_false s :
  starts_with_space s = false -> split_from true s = split_from false s.
Proof. destruct s as [|c r]; [reflexivity|]. simpl. intros ->. reflexivity. Qed.

Lemma rejoined_starts_false r c0 :
  no_space c0 = true ->
  starts_with_space (join " " (split_from false r) +++ c0) = starts_with_space r.
Proof.
  intros Hc. destruct r as [|c r].
  - simpl. apply no_space_starts, Hc.
  - cbn [split_from andb].
    destruct (is_terminator c && starts_with_space r);
      rewrite join_cons_head by (try apply split_from_nonempty; discriminate);
      reflexivity.
Qed.

Lemma rejoined_starts_true s c0 :
  no_space c0 = true ->
  starts_with_space (join " " (split_from true s) +++ c0) = false.
Proof.
  intros Hc. induction s as [|c r IH].
  - simpl. apply no_space_starts, Hc.
  - cbn [split_from andb]. destruct (is_space c) eqn:E; [exact IH|].
    destruct (is_terminator c && starts_with_space r);
      rewrite join_cons_head by (try apply split_from_nonempty; discriminate);
      simpl; exact E.
Qed.

(** Splitting the rejoined text, with something free of white space
    appended, gives the same pieces, the last one extended. *)
Lemma split_rejoined c0 s : no_space c0 = true -> forall b,
  split_from false (join " " (split_from b s) +++ c0)
  = append_last (split_from b s) c0.
Proof.
  intros Hc. induction s as [|c r IH]; intros b.
  - cbn [split_from join append_last]. change ("" +++ c0) with c0.
    apply split_from_no_space, Hc.
  - cbn [split_from]. destruct (b && is_space c) eqn:Eb; [apply IH|].
    destruct (is_terminator c && starts_with_space r) eqn:ET.
    + pose proof (split_from_nonempty true r) as Hne.
      cbn [cons_head]. rewrite join_cons by exact Hne.
      rewrite append_last_cons by exact Hne.
      change (String c "" +++ " " +++ join " " (split_from true r))
        with (String c (String " " (join " " (split_from true r)))).
      cbn [String.append split_from andb].
      apply andb_true_iff in ET as [-> _].
      change (starts_with_space (String " " _)) with true.
      change (is_space " ") with true. cbn [andb cons_head].
      rewrite split_from_true_false by (apply rejoined_starts_true, Hc).
      rewrite IH. reflexivity.
    + pose proof (split_from_nonempty false r) as Hne.
      rewrite join_cons_head by exact Hne.
      rewrite append_last_cons_head by exact Hne.
      cbn [String.append split_from andb].
      rewrite (rejoined_starts_false r c0 Hc), ET, IH. reflexivity.
Qed.

Lemma insert_citations_join text citation :
  insert_citations text citation
  = join " " (re_split_sentences text) +++ citation.
Proof.
  unfold insert_citations, re_split_sentences.
  pose proof (split_from_nonempty false text) as Hne.
  rewrite <- join_append_last by exact Hne.
  destruct (split_from false text); [congruence|reflexivity].
Qed.

Lemma insert_citations_again text acc citation :
  no_space acc = true ->
  insert_citations (join " " (re_split_sentences text) +++ acc) citation
  = join " " (re_split_sentences text) +++ acc +++ citation.
Proof.
  intros Ha. rewrite insert_citations_join. unfold re_split_sentences.
  rewrite (split_rejoined acc text Ha false).
  rewrite join_append_last by apply split_from_nonempty.
  apply append_assoc.
Qed.

Lemma no_space_append a b : no_space (a +++ b) = no_space a && no_space b.
Proof. apply string_forall_append. Qed.

Lemma str_of_int_no_space z : no_space (str_of_int z) = true.
Proof.
  assert (Hd : forall d, no_space (NilEmpty.string_of_uint d) = true).
  { intros d. unfold no_space. eapply string_forall_impl; [|apply string_of_uint_digits].
    intros c. unfold is_digit, is_space.
    destruct (nat_of_ascii c) as [|n]; [discriminate|].
    do 47 (destruct n as [|n]; [discriminate|]).
    do 10 (destruct n as [|n]; [reflexivity|]).
    discriminate. }
  destruct z as [|p|p].
  - reflexivity.
  - rewrite str_of_int_pos. apply Hd.
  - rewrite str_of_int_neg. unfold no_space. cbn [string_forall]. apply Hd.
Qed.

Lemma marker_no_space m sid : no_space (citation_marker m sid) = true.
Proof.
  unfold citation_marker. rewrite !no_space_append, str_of_int_no_space. reflexivity.
Qed.

Lemma markers_no_space m ids : no_space (concat_all (markers m ids)) = true.
Proof.
  induction ids as [|sid r IH]; [reflexivity|].
  cbn [markers map concat_all fold_right]. rewrite no_space_append.
  fold (citation_marker m sid). rewrite marker_no_space. exact IH.
Qed.

Lemma fold_insert_citations m text acc ids :
  no_space acc = true ->
  fold_left (fun cited sid => insert_citations cited (citation_marker m sid)) ids
            (join " " (re_split_sentences text) +++ acc)
  = join " " (re_split_sentences text) +++ acc +++ concat_all (markers m ids).
Proof.
  revert acc. induction ids as [|sid r IH]; intros acc Ha.
  - cbn [fold_left markers map concat_all fold_right].
    rewrite append_nil_r. reflexivity.
  - cbn [fold_left]. rewrite insert_citations_again by exact Ha.
    rewrite IH.
    + rewrite append_assoc. reflexivity.
    + rewrite no_space_append, Ha. apply marker_no_space.
Qed.

Lemma create_cited_content_nonempty m text ids :
  ids <> [] ->
  content (create_cited_content m text ids)
  = join " " (re_split_sentences text) +++ concat_all (markers m ids).
Proof.
  destruct ids as [|sid r]; [congruence|]. intros _.
  unfold create_cited_content. cbn [content fold_left].
  rewrite insert_citations_join.
  rewrite fold_insert_citations by apply marker_no_space. reflexivity.
Qed.

Lemma fold_left_markers m ids text :
  fold_left insert_citations (markers m ids) text
  = fold_left (fun cited sid => insert_citations cited (citation_marker m sid))
              ids text.
Proof.
  revert text. induction ids as [|sid r IH]; intros text; [reflexivity|].
  cbn [markers map fold_left]. apply IH.
Qed.

(** ** White space between sentences *)

Lemma seps_from_true_nonempty s : seps_from true s <> [].
Proof.
  induction s as [|c r IH]; cbn [seps_from]; [discriminate|].
  destruct (true && is_space c); [|discriminate].
  destruct (seps_from true r); [congruence|discriminate].
Qed.

Lemma weave_cons_head c l seps :
  l <> [] -> weave (cons_head c l) seps = String c (weave l seps).
Proof. destruct l as [|p r]; [congruence|]. destruct seps; reflexivity. Qed.

(** Pieces and separators make up the text. *)
Lemma weave_split_from s : forall b : bool,
  weave (if b then "" :: split_from true s else split_from false s)
        (seps_from b s) = s.
Proof.
  induction s as [|c r IH]; intros b.
  - destruct b; reflexivity.
  - set (T := is_terminator c && starts_with_space r).
    assert (Hw : weave (if T then cons_head c ("" :: split_from true r)
                        else cons_head c (split_from false r))
                       (seps_from T r) = String c r).
    { specialize (IH T). destruct T.
      - rewrite weave_cons_head by discriminate. rewrite IH. reflexivity.
      - rewrite weave_cons_head by apply split_from_nonempty.
        rewrite IH. reflexivity. }
    destruct b; cbn [split_from seps_from andb]; fold T.
    + destruct (is_space c) eqn:Ec.
      * specialize (IH true). pose proof (seps_from_true_nonempty r) as Hne.
        destruct (seps_from true r) as [|h tl]; [congruence|].
        cbn [cons_head weave String.append] in *. rewrite IH. reflexivity.
      * cbn [weave String.append]. exact Hw.
    + exact Hw.
Qed.

Lemma seps_from_lengths s : forall b : bool,
  match seps_from b s with
  | h :: tl =>
      if b then (starts_with_space s = true -> h <> "")
                /\ Forall (fun x => x <> "") tl
      else Forall (fun x => x <> "") (h :: tl)
  | [] => b = false
  end.
Proof.
  induction s as [|c r IH]; intros b.
  - destruct b; cbn; [split; [discriminate|constructor]|reflexivity].
  - cbn [seps_from]. destruct (b && is_space c) eqn:Eb.
    + apply andb_true_iff in Eb as [-> Ec]. specialize (IH true).
      destruct (seps_from true r) as [|h tl]; [discriminate|].
      cbn [cons_head]. split; [discriminate|apply IH].
    + set (T := is_terminator c && starts_with_space r) in *.
      assert (Hk : Forall (fun x => x <> "") (seps_from T r)).
      { specialize (IH T). destruct (seps_from T r) as [|h tl]; [constructor|].
        destruct T eqn:ET; [|exact IH].
        destruct IH as [Hh Htl]. constructor; [|exact Htl].
        apply Hh. apply andb_true_iff in ET. apply ET. }
      destruct b.
      * split; [|exact Hk]. cbn. rewrite andb_true_l in Eb. congruence.
      * destruct (seps_from T r); [reflexivity|exact Hk].
Qed.

Lemma seps_from_false_nonempty_runs s :
  Forall (fun x => x <> "") (seps_from false s).
Proof.
  pose proof (seps_from_lengths s false) as H.
  destruct (seps_from false s); [constructor|exact H].
Qed.

Lemma split_seps_length s : forall b : bool,
  List.length (split_from b s)
  = (List.length (seps_from b s) + (if b then 0 else 1))%nat.
Proof.
  induction s as [|c r IH]; intros b.
  - destruct b; reflexivity.
  - cbn [split_from seps_from]. destruct (b && is_space c) eqn:Eb.
    + apply andb_true_iff in Eb as [-> _]. rewrite (IH true).
      pose proof (seps_from_true_nonempty r).
      destruct (seps_from true r); [congruence|reflexivity].
    + assert (Hc : forall x l, l <> [] ->
                List.length (cons_head x l) = List.length l)
        by (intros x [|? ?]; [congruence|reflexivity]).
      destruct (is_terminator c && starts_with_space r).
      * rewrite Hc by discriminate. cbn [List.length]. rewrite (IH true).
        destruct b; cbn [List.length]; lia.
      * rewrite Hc by apply split_from_nonempty. rewrite (IH false).
        destruct b; cbn [List.length]; lia.
Qed.

Lemma weave_length_ge pieces seps :
  Forall (fun x => x <> "") seps ->
  List.length pieces = S (List.length seps) ->
  (String.length (join " " pieces) <= String.length (weave pieces seps))%nat.
Proof.
  revert seps. induction pieces as [|p ps IH]; intros seps Hs Hl; [discriminate|].
  destruct seps as [|s ss].
  - destruct ps; [|discriminate]. cbn. rewrite append_nil_r. lia.
  - inversion Hs as [|? ? Hne Hss]; subst. injection Hl as Hl.
    assert (ps <> []) by (destruct ps; [discriminate|congruence]).
    rewrite join_cons by assumption. cbn [weave].
    rewrite !length_append. specialize (IH ss Hss Hl).
    destruct s as [|x s']; [congruence|]. cbn [String.length]. lia.
Qed.

(** Joining the pieces with one space gives the text back exactly when
    every separator is one space. *)
Lemma join_weave_iff pieces seps :
  Forall (fun x => x <> "") seps ->
  List.length pieces = S (List.length seps) ->
  join " " pieces = weave pieces seps <-> Forall (eq " ") seps.
Proof.
  revert seps. induction pieces as [|p ps IH]; intros seps Hs Hl; [discriminate|].
  destruct seps as [|s ss].
  - destruct ps; [|discriminate]. cbn. rewrite append_nil_r. split; [constructor|reflexivity].
  - inversion Hs as [|? ? Hne Hss]; subst. injection Hl as Hl.
    assert (Hps : ps <> []) by (destruct ps; [discriminate|congruence]).
    rewrite join_cons by assumption. cbn [weave]. split.
    + intros E. apply append_inv_head in E.
      destruct s as [|x s']; [congruence|].
      cbn [String.append] in E. injection E as <- E.
      pose proof (weave_length_ge ps ss Hss Hl) as Hge.
      apply (f_equal String.length) in E as El. rewrite length_append in El.
      destruct s' as [|y s']; [|cbn [String.length] in El; lia].
      cbn [String.append] in E. constructor; [reflexivity|].
      apply IH; assumption.
    + intros F. inversion F as [|? ? <- F']; subst.
      f_equal. f_equal. apply IH; assumption.
Qed.

Lemma join_sentences_iff text :
  join " " (re_split_sentences text) = text
  <-> Forall (eq " ") (sentence_separators text).
Proof.
  unfold re_split_sentences, sentence_separators.
  pose proof (weave_split_from text false) as Hw. cbn in Hw.
  rewrite <- Hw at 2. apply join_weave_iff.
  - apply seps_from_false_nonempty_runs.
  - rewrite (split_seps_length text false). lia.
Qed.

Lemma seps_from_spaces s : forall b : bool,
  Forall (fun x => string_forall is_space x = true) (seps_from b s).
Proof.
  induction s as [|c r IH]; intros b.
  - destruct b; repeat constructor.
  - cbn [seps_from]. destruct (b && is_space c) eqn:Eb.
    + apply andb_true_iff in Eb as [_ Ec]. specialize (IH true).
      destruct (seps_from true r) as [|h tl]; cbn [cons_head].
      * repeat constructor. cbn. rewrite Ec. reflexivity.
      * inversion IH as [|? ? Hh Htl]; subst. constructor; [|exact Htl].
        cbn. rewrite Ec. exact Hh.
    + destruct b; [constructor; [reflexivity|]|]; apply IH.
Qed.

Lemma insert_citations_append_iff text citation :
  insert_citations text citation = text +++ citation
  <-> Forall (eq " ") (sentence_separators text).
Proof.
  rewrite insert_citations_join, <- join_sentences_iff. split.
  - apply append_inv_tail.
  - intros ->. reflexivity.
Qed.

Lemma split_from_false_head r p ps :
  split_from false r = p :: ps -> starts_with_space p = starts_with_space r.
Proof.
  destruct r as [|c r]; cbn [split_from andb].
  - intros [= <- _]. reflexivity.
  - destruct (is_terminator c && starts_with_space r).
    + intros [= <- _]. reflexivity.
    + pose proof (split_from_nonempty false r).
      destruct (split_from false r); [congruence|]. intros [= <- _]. reflexivity.
Qed.

Lemma split_from_no_boundary s : forall b : bool,
  Forall (fun p => has_boundary p = false) (split_from b s).
Proof.
  induction s as [|c r IH]; intros b.
  - repeat constructor.
  - cbn [split_from]. destruct (b && is_space c); [apply IH|].
    destruct (is_terminator c && starts_with_space r) eqn:ET.
    + constructor; [|apply IH]. cbn. rewrite andb_false_r. reflexivity.
    + specialize (IH false). pose proof (split_from_false_head r) as Hh.
      pose proof (split_from_nonempty false r) as Hne.
      destruct (split_from false r) as [|p ps]; [congruence|].
      inversion IH as [|? ? Hp Hps]; subst. constructor; [|exact Hps].
      cbn [cons_head has_boundary]. rewrite (Hh p ps eq_refl), ET, Hp. reflexivity.
Qed.

Lemma split_from_no_leading_space s : forall b : bool,
  Forall (fun p => starts_with_space p = false)
         (if b then split_from true s else tl (split_from false s)).
Proof.
  induction s as [|c r IH]; intros b.
  - destruct b; repeat constructor.
  - assert (Hf : Forall (fun p => starts_with_space p = false)
                   (tl (split_from false (String c r)))).
    { cbn [split_from andb].
      destruct (is_terminator c && starts_with_space r).
      - exact (IH true).
      - specialize (IH false). destruct (split_from false r); [constructor|exact IH]. }
    destruct b; [|exact Hf]. cbn [split_from andb] in *.
    destruct (is_space c) eqn:Ec; [exact (IH true)|].
    destruct (is_terminator c && starts_with_space r).
    + constructor; [exact Ec|exact Hf].
    + destruct (split_from false r); constructor; try exact Ec; exact Hf.
Qed.

Lemma split_from_false_first r p q ps :
  split_from false r = p :: q :: ps -> p <> "".
Proof.
  destruct r as [|c r]; cbn [split_from andb]; [discriminate|].
  destruct (is_terminator c && starts_with_space r).
  - intros [= <- _]. discriminate.
  - destruct (split_from false r); intros [= <- _]; discriminate.
Qed.

Lemma split_from_terminated s : forall b : bool,
  Forall (fun p => ends_with_terminator p = true) (removelast (split_from b s)).
Proof.
  induction s as [|c r IH]; intros b.
  - constructor.
  - cbn [split_from]. destruct (b && is_space c); [apply IH|].
    destruct (is_terminator c && starts_with_space r) eqn:ET.
    + specialize (IH true). pose proof (split_from_nonempty true r) as Hne.
      destruct (split_from true r) as [|p ps]; [congruence|].
      cbn [cons_head]. change (removelast (String c "" :: p :: ps))
        with (String c "" :: removelast (p :: ps)).
      constructor; [|exact IH]. cbn. apply andb_true_iff in ET. apply ET.
    + specialize (IH false). pose proof (split_from_false_first r) as Hf.
      destruct (split_from false r) as [|p [|q ps]]; [constructor..|].
      cbn [cons_head]. change (removelast (String c p :: q :: ps))
        with (String c p :: removelast (q :: ps)).
      change (removelast (p :: q :: ps)) with (p :: removelast (q :: ps)) in IH.
      inversion IH as [|? ? Hp Hps]; subst. constructor; [|exact Hps].
      specialize (Hf p q ps eq_refl). destruct p; [congruence|exact Hp].
Qed.

(** [re_split_sentences] and [sentence_separators] split the text at the
    white space that follows a terminator. *)
Lemma re_split_sentences_split text :
  sentence_split text (re_split_sentences text) (sentence_separators text).
Proof.
  unfold sentence_split, re_split_sentences, sentence_separators.
  repeat apply conj.
  - symmetry. exact (weave_split_from text false).
  - rewrite (split_seps_length text false). lia.
  - apply Forall_forall. intros sep Hin. split.
    + exact (proj1 (Forall_forall _ _) (seps_from_false_nonempty_runs text) _ Hin).
    + exact (proj1 (Forall_forall _ _) (seps_from_spaces text false) _ Hin).
  - apply split_from_terminated.
  - exact (split_from_no_leading_space text false).
  - apply split_from_no_boundary.
Qed.

(** C7. [create_cited_content] takes the identifiers in order, forms
    for each the marker [[n]] from its citation number and hands text
    and marker to [insert_citations], which appends the marker to the
    last of the sentences it splits the text into.  With at least one
    identifier the result is the sentences of the text, joined, with all
    markers in the order of the identifiers after the last sentence.
    The sentences are what lies between the runs of white space that
    follow a [.], [!] or [?].  Annotating "Sentence one. Sentence two."
    with one identifier of citation number 1 gives
    "Sentence one. Sentence two.[1]". *)
Theorem create_cited_content_markers (m : CitationManager) (text : string)
  (ids : list string) :
  content (create_cited_content m text ids)
  = fold_left insert_citations (markers m ids) text
  /\ (forall t c,
        insert_citations t c = join " " (append_last (re_split_sentences t) c))
  /\ (forall t, sentence_split t (re_split_sentences t) (sentence_separators t))
  /\ (ids <> [] ->
      content (create_cited_content m text ids)
      = join " " (append_last (re_split_sentences text)
                              (concat_all (markers m ids))))
  /\ (forall sid, get_citation_number m sid = 1 ->
        content (create_cited_content m "Sentence one. Sentence two." [sid])
        = "Sentence one. Sentence two.[1]").
Proof.
  split; [|split; [|split; [|split]]].
  - rewrite fold_left_markers. reflexivity.
  - intros t c. rewrite insert_citations_join, join_append_last; [reflexivity|].
    apply split_from_nonempty.
  - exact re_split_sentences_split.
  - intros Hne. rewrite create_cited_content_nonempty by exact Hne.
    rewrite join_append_last; [reflexivity|apply split_from_nonempty].
  - intros sid H. unfold create_cited_content. cbn [content fold_left].
    unfold citation_marker. rewrite H. reflexivity.
Qed.

Lemma create_cited_content_markers_witness :
  content (create_cited_content (one_source (1 # 2))
             "First. Second!  Third?" ["src_1"; "unknown"; "src_1"])
  = "First. Second! Third?[1][0][1]"
  /\ content (create_cited_content (one_source (1 # 2))
                "Sentence one. Sentence two." ["src_1"])
     = "Sentence one. Sentence two.[1]".
Proof.
  destruct (create_cited_content_markers (one_source (1 # 2))
              "First. Second!  Third?" ["src_1"; "unknown"; "src_1"])
    as (_ & _ & _ & H & Hs).
  split.
  - rewrite H by discriminate. reflexivity.
  - apply Hs. reflexivity.
Defined.

(** C10. [insert_citations] returns the sentences of the text joined
    by single spaces, followed by the citation; the text itself is its
    sentences with, between them, the runs of white space the split
    matched.  So when one of these runs is anything but a single space,
    the result is not the text followed by the citation, and the
    annotation of the text with at least one identifier is not the text
    followed by the markers.  When every run is a single space it is. *)
Theorem insert_citations_normalises (text citation : string) :
  sentence_split text (re_split_sentences text) (sentence_separators text)
  /\ insert_citations text citation
     = join " " (re_split_sentences text) +++ citation
  /\ ((exists sep, In sep (sentence_separators text) /\ sep <> " ") ->
      insert_citations text citation <> text +++ citation
      /\ forall m ids, ids <> [] ->
           content (create_cited_content m text ids)
           <> text +++ concat_all (markers m ids))
  /\ (Forall (eq " ") (sentence_separators text) ->
      insert_citations text citation = text +++ citation).
Proof.
  split; [|split; [|split]].
  - apply re_split_sentences_split.
  - apply insert_citations_join.
  - intros (sep & Hin & Hsep).
    assert (Hn : ~ Forall (eq " ") (sentence_separators text)).
    { intros F. apply Hsep. symmetry.
      exact (proj1 (Forall_forall _ _) F _ Hin). }
    split.
    + intros E. apply Hn. apply insert_citations_append_iff in E. exact E.
    + intros m ids Hne E. apply Hn. apply join_sentences_iff.
      rewrite create_cited_content_nonempty in E by exact Hne.
      apply append_inv_tail in E. exact E.
  - apply insert_citations_append_iff.
Qed.

Lemma insert_citations_normalises_witness :
  insert_citations ("One." +++ String "010" "Two.") "[1]"
  <> ("One." +++ String "010" "Two.") +++ "[1]"
  /\ insert_citations "One. Two." "[1]" = "One. Two." +++ "[1]".
Proof.
  split.
  - apply (insert_citations_normalises ("One." +++ String "010" "Two.") "[1]").
    exists (String "010" ""). split; [left; reflexivity|discriminate].
  - apply (insert_citations_normalises "One. Two." "[1]").
    repeat constructor.
Defined.

(** * Further properties of the citation manager *)

(** ** Lookup after insertion *)

Lemma dict_get_set_same {V} k (v : V) d : dict_get k (dict_set k v d) = Some v.
Proof.
  induction d as [|[k' v'] r IH]; simpl.
  - rewrite String.eqb_refl. reflexivity.
  - destruct (String.eqb_spec k' k) as [->|Hn]; simpl.
    + rewrite String.eqb_refl. reflexivity.
    + destruct (String.eqb_spec k' k); [congruence|exact IH].
Qed.

Lemma dict_In_get {V} k (v : V) d :
  dict_wf d -> In (k, v) d -> dict_get k d = Some v.
Proof.
  unfold dict_wf. induction d as [|[k' v'] r IH]; simpl; intros Hwf Hin; [tauto|].
  inversion Hwf as [|? ? Hni Hnd]; subst.
  destruct Hin as [[= -> ->]|Hin].
  - rewrite String.eqb_refl. reflexivity.
  - destruct (String.eqb_spec k' k) as [->|Hn]; [|auto].
    exfalso. apply Hni. change k with (fst (k, v)). apply in_map, Hin.
Qed.

Lemma dict_get_app_l {V} k (v : V) d t :
  dict_get k d = Some v -> dict_get k (d ++ t) = Some v.
Proof.
  induction d as [|[k' v'] r IH]; simpl; [discriminate|].
  destruct (String.eqb k' k); auto.
Qed.

(** X1. In a dictionary with distinct keys, the identifier returned by
    [add_source] leads, in the resulting registry, to a source with the
    url of the source given: that very source when its url was new. *)
Theorem add_source_lookup (m : CitationManager) (source : Source) :
  dict_wf (source_registry m) ->
  exists stored,
    dict_get (fst (add_source m source))
             (source_registry (snd (add_source m source))) = Some stored
    /\ url stored = url source
    /\ (find_url (url source) (source_registry m) = None -> stored = source).
Proof.
  intros Hwf.
  destruct (find_url (url source) (source_registry m)) as [[k e]|] eqn:E.
  - rewrite (add_source_existing _ _ _ _ E). cbn [fst snd].
    destruct (find_url_Some _ _ _ _ E) as [Hin Hu].
    exists e. repeat split; [apply dict_In_get; assumption|exact Hu|discriminate].
  - rewrite (add_source_new _ _ E). cbn [fst snd source_registry].
    exists source. repeat split. apply dict_get_set_same.
Qed.

Lemma add_source_lookup_witness :
  exists stored,
    dict_get "src_1" (source_registry (one_source (1 # 2))) = Some stored
    /\ url stored = "A.com".
Proof.
  destruct (add_source_lookup reset (demo_source "A.com" "a.com" (1 # 2)))
    as (stored & H1 & H2 & _).
  - constructor.
  - exists stored. split; [exact H1|exact H2].
Defined.

(** X2. In a reachable manager [add_source] only ever appends: the
    registry afterwards is the registry before followed by at most one
    entry, so every earlier identifier still leads to the same source. *)
Theorem add_source_appends (m : CitationManager) (source : Source) :
  reachable m ->
  exists tail,
    source_registry (snd (add_source m source)) = source_registry m ++ tail
    /\ (List.length tail <= 1)%nat
    /\ forall k e, dict_get k (source_registry m) = Some e ->
         dict_get k (source_registry (snd (add_source m source))) = Some e.
Proof.
  intros Hr. destruct (reachable_canonical _ Hr) as [l (Hreg & Hn & Hd)].
  destruct (find_url (url source) (source_registry m)) as [[k e]|] eqn:E.
  - rewrite (add_source_existing _ _ _ _ E). cbn [snd]. exists [].
    rewrite List.app_nil_r. repeat split; auto.
  - rewrite (add_source_new _ _ E). cbn [snd source_registry].
    exists [(src_id (citation_counter m), source)].
    assert (Hs : dict_set (src_id (citation_counter m)) source (source_registry m)
                 = source_registry m ++ [(src_id (citation_counter m), source)]).
    { apply dict_set_new. rewrite Hreg. intros H.
      apply number_from_keys in H as (i & Hi & Ei). apply src_id_inj in Ei. lia. }
    rewrite Hs. repeat split; [simpl; lia|].
    intros k e. apply dict_get_app_l.
Qed.

Lemma add_source_appends_witness :
  exists tail,
    source_registry (snd (add_source (one_source (1 # 2))
                                     (demo_source "B.com" "b.com" 0)))
    = source_registry (one_source (1 # 2)) ++ tail.
Proof.
  destruct (add_source_appends (one_source (1 # 2)) (demo_source "B.com" "b.com" 0))
    as (tail & H & _).
  - apply reachable_add, reachable_reset.
  - exists tail. exact H.
Defined.

Lemma number_from_dict_keys c l :
  dict_keys (number_from c l)
  = map src_id (map (fun i => c + Z.of_nat i) (seq 0 (List.length l))).
Proof.
  revert c. induction l as [|s r IH]; intros c; [reflexivity|].
  cbn [number_from dict_keys map List.length seq fst].
  f_equal; [f_equal; lia|].
  fold (dict_keys (number_from (c + 1) r)).
  rewrite IH, <- seq_shift, !map_map. apply map_ext. intros i. f_equal. lia.
Qed.

(** X3. In a reachable manager holding [n] sources the identifiers are,
    in insertion order, [src_1] ... [src_n], all different, the counter
    is [n + 1], and the stored urls are pairwise different. *)
Theorem reachable_shape (m : CitationManager) :
  reachable m ->
  let n := List.length (source_registry m) in
  dict_keys (source_registry m)
  = map (fun k => "src_" +++ str_of_int k) (map Z.of_nat (seq 1 n))
  /\ citation_counter m = Z.of_nat n + 1
  /\ dict_wf (source_registry m)
  /\ NoDup (map entry_url (source_registry m)).
Proof.
  intros Hr. cbv zeta. destruct (reachable_canonical _ Hr) as [l (Hreg & Hn & Hd)].
  rewrite Hreg, number_from_length. repeat split.
  - rewrite number_from_dict_keys, <- seq_shift, !map_map.
    apply map_ext. intros i. unfold src_id. do 2 f_equal. lia.
  - lia.
  - apply number_from_wf.
  - rewrite number_from_urls. exact Hd.
Qed.

Lemma reachable_shape_witness :
  dict_keys (source_registry fifteen)
  = map (fun k => "src_" +++ str_of_int k) (map Z.of_nat (seq 1 15)).
Proof.
  apply (reachable_shape fifteen). apply reachable_add_all, reachable_reset.
Defined.

(** ** Citation numbers, again *)

Lemma nth_error_number_from_keys c l i sid :
  nth_error (dict_keys (number_from c l)) i = Some sid ->
  sid = src_id (c + Z.of_nat i) /\ (i < List.length l)%nat.
Proof.
  revert c i. induction l as [|s r IH]; intros c i.
  - destruct i; discriminate.
  - destruct i as [|i]; cbn [number_from dict_keys map fst nth_error List.length].
    + intros [= <-]. split; [f_equal; lia|lia].
    + intros H. apply (IH (c + 1)) in H as [-> Hi]. split; [f_equal; lia|lia].
Qed.

(** X4. In a reachable manager the citation number of an identifier is
    the integer the identifier carries: a positive [n] is the citation
    number of [sid] exactly when [sid] is [src_n] and the registry holds
    at least [n] sources. *)
Theorem citation_number_is_suffix (m : CitationManager) (sid : string) (n : Z) :
  reachable m -> 1 <= n ->
  (get_citation_number m sid = n
   <-> sid = "src_" +++ str_of_int n
       /\ n <= Z.of_nat (List.length (source_registry m))).
Proof.
  intros Hr Hn. destruct (reachable_canonical _ Hr) as [l (Hreg & _ & _)].
  unfold get_citation_number. rewrite Hreg, number_from_length. split.
  - destruct (list_index sid (dict_keys (number_from 1 l))) as [i|] eqn:E; [|lia].
    intros <-. apply list_index_Some in E as [E _].
    apply nth_error_number_from_keys in E as [-> Hi].
    split; [unfold src_id; do 2 f_equal; lia|lia].
  - intros [-> Hle]. fold (src_id n).
    replace n with (1 + Z.of_nat (Z.to_nat (n - 1))) at 1 by lia.
    rewrite list_index_number_from by lia. lia.
Qed.

Lemma citation_number_is_suffix_witness :
  get_citation_number fifteen "src_12" = 12.
Proof.
  apply (citation_number_is_suffix fifteen "src_12" 12).
  - apply reachable_add_all, reachable_reset.
  - lia.
  - split; [reflexivity|vm_compute; discriminate].
Defined.

Lemma list_index_nth l : NoDup l -> forall i x,
  nth_error l i = Some x -> list_index x l = Some i.
Proof.
  induction 1 as [|y r Hni Hnd IH]; intros i x Hx.
  - destruct i; discriminate.
  - cbn [list_index]. destruct i as [|i]; cbn [nth_error] in Hx.
    + injection Hx as ->. rewrite String.eqb_refl. reflexivity.
    + destruct (String.eqb_spec y x) as [->|Hn].
      * exfalso. apply Hni. eapply nth_error_In, Hx.
      * rewrite (IH _ _ Hx). reflexivity.
Qed.

(** X5. Citation numbers and positions are inverse to each other: the
    identifier at position [i] of a registry with distinct keys has
    citation number [i + 1], and two identifiers with the same non-zero
    citation number are the same. *)
Theorem citation_number_position_inverse (m : CitationManager) :
  dict_wf (source_registry m) ->
  (forall i sid, nth_error (dict_keys (source_registry m)) i = Some sid ->
     get_citation_number m sid = Z.of_nat i + 1)
  /\ (forall a b, get_citation_number m a <> 0 ->
        get_citation_number m a = get_citation_number m b -> a = b).
Proof.
  intros Hwf. split.
  - intros i sid H. unfold get_citation_number.
    rewrite (list_index_nth _ Hwf _ _ H). reflexivity.
  - intros a b. unfold get_citation_number.
    destruct (list_index a _) as [i|] eqn:Ea; [|congruence].
    destruct (list_index b _) as [j|] eqn:Eb; [|lia].
    intros _ E. assert (i = j) as -> by lia.
    apply list_index_Some in Ea as [Ea _]. apply list_index_Some in Eb as [Eb _].
    congruence.
Qed.

Lemma citation_number_position_inverse_witness :
  get_citation_number fifteen "src_3" = 3.
Proof.
  destruct (citation_number_position_inverse fifteen) as [H _].
  - vm_compute. repeat constructor; simpl; intuition discriminate.
  - exact (H 2%nat "src_3" eq_refl).
Defined.

(** ** Confidence, again *)

Lemma present_scores_none m ids :
  (forall sid, In sid ids -> dict_get sid (source_registry m) = None) ->
  present_scores m ids = [].
Proof.
  unfold present_scores. induction ids as [|sid r IH]; intros H; [reflexivity|].
  cbn [flat_map]. rewrite (H sid (or_introl eq_refl)). apply IH.
  intros x Hx. apply H. right. exact Hx.
Qed.

(** X7. Identifiers the registry does not hold give no confidence: when
    none of the identifiers is in the registry (an empty registry, say)
    the confidence is 0. *)
Theorem calculate_confidence_unknown (m : CitationManager) (ids : list string) :
  (forall sid, In sid ids -> dict_get sid (source_registry m) = None) ->
  (calculate_confidence m ids == 0)%Q.
Proof.
  intros H. rewrite calculate_confidence_over_all.
  destruct ids as [|a r]; [reflexivity|].
  unfold confidence_over_all. rewrite (present_scores_none _ _ H).
  unfold py_min. destruct (Qle_bool _ _) eqn:E.
  - unfold Qsum. cbn [fold_right]. unfold Qdiv. apply Qmult_0_l.
  - exfalso. apply not_true_iff_false in E. apply E, Qle_bool_iff.
    unfold Qsum. cbn [fold_right]. unfold Qdiv. rewrite Qmult_0_l. discriminate.
Qed.

Lemma calculate_confidence_unknown_witness :
  (calculate_confidence reset ["src_1"; "src_2"] == 0)%Q.
Proof.
  apply calculate_confidence_unknown. intros sid _. reflexivity.
Defined.





(** ** Annotating twice *)

(** X9. Once a text has been annotated with at least one identifier,
    annotating the result again only appends the new markers: the white
    space is normalised by the first pass and left alone by the second,
    and the two passes together give what one pass over both lists of
    identifiers gives. *)
Theorem create_cited_content_twice (m1 m2 : CitationManager) (text : string)
  (ids1 ids2 : list string) :
  ids1 <> [] ->
  let once := content (create_cited_content m1 text ids1) in
  content (create_cited_content m2 once ids2)
  = once +++ concat_all (markers m2 ids2)
  /\ content (create_cited_content m1 once ids2)
     = content (create_cited_content m1 text (ids1 ++ ids2)).
Proof.
  intros Hne. cbv zeta.
  assert (H : forall m,
             content (create_cited_content m
                        (content (create_cited_content m1 text ids1)) ids2)
             = content (create_cited_content m1 text ids1)
               +++ concat_all (markers m ids2)).
  { intros m. rewrite (create_cited_content_nonempty m1 text ids1 Hne).
    unfold create_cited_content at 1. cbn [content].
    rewrite fold_insert_citations by apply markers_no_space.
    rewrite append_assoc. reflexivity. }
  split; [apply H|]. rewrite H.
  rewrite !create_cited_content_nonempty
    by first [exact Hne | destruct ids1; [congruence|discriminate]].
  rewrite append_assoc. f_equal.
  clear. induction ids1 as [|a r IH]; [reflexivity|].
  cbn [markers map app concat_all fold_right] in *. rewrite append_assoc.
  f_equal. exact IH.
Qed.

Lemma create_cited_content_twice_witness :
  content (create_cited_content (one_source (1 # 2))
             (content (create_cited_content (one_source (1 # 2))
                         ("One." +++ String "010" "Two.") ["src_1"]))
             ["zzz"])
  = "One. Two.[1][0]".
Proof.
  destruct (create_cited_content_twice (one_source (1 # 2)) (one_source (1 # 2))
              ("One." +++ String "010" "Two.") ["src_1"] ["zzz"]) as [H _].
  - discriminate.
  - rewrite H. reflexivity.
Defined.

(** ** The bibliography, again *)

Lemma dedup_urls_In seen l u :
  In u (map entry_url (dedup_urls seen l))
  <-> In u (map entry_url l) /\ ~ In u seen.
Proof.
  revert seen. induction l as [|item r IH]; intros seen; cbn [dedup_urls map].
  - simpl. tauto.
  - destruct (str_mem (url (snd item)) seen) eqn:E.
    + apply str_mem_In in E. rewrite IH. unfold entry_url at 2. simpl.
      split; [tauto|]. intros [[<-|H] Hn]; [tauto|tauto].
    + assert (Hn : ~ In (url (snd item)) seen)
        by (intros H; apply str_mem_In in H; congruence).
      cbn [map In]. rewrite IH. unfold entry_url at 1 3. simpl.
      destruct (string_dec (url (snd item)) u) as [<-|Hne]; [tauto|].
      intuition congruence.
Qed.

Lemma dedup_urls_NoDup_urls seen l : NoDup (map entry_url (dedup_urls seen l)).
Proof.
  revert seen. induction l as [|item r IH]; intros seen; cbn [dedup_urls].
  - constructor.
  - destruct (str_mem (url (snd item)) seen); [apply IH|].
    cbn [map]. constructor; [|apply IH].
    rewrite dedup_urls_In. unfold entry_url. simpl. tauto.
Qed.

Lemma dedup_urls_incl seen l e : In e (dedup_urls seen l) -> In e l.
Proof.
  revert seen. induction l as [|item r IH]; intros seen; cbn [dedup_urls]; [tauto|].
  destruct (str_mem (url (snd item)) seen).
  - intros H. right. eapply IH, H.
  - intros [<-|H]; [left; reflexivity|right; eapply IH, H].
Qed.

Lemma NoDup_same_length {A} (a b : list A) :
  NoDup a -> NoDup b -> (forall x, In x a <-> In x b) ->
  List.length a = List.length b.
Proof.
  intros Ha Hb H. apply Nat.le_antisymm; apply NoDup_incl_length;
    try assumption; intros x Hx; apply H, Hx.
Qed.

(** X10. The text of [format_sources_list] is the header and one line
    per row, and there are as many rows as the registry has different
    urls, but never more than ten. *)
Theorem bibliography_rows_count (m : CitationManager) :
  format_sources_list m = sources_header +++ render_rows (bibliography_rows m)
  /\ List.length (bibliography_rows m)
     = Nat.min 10 (List.length (nodup string_dec
                                  (map entry_url (source_registry m)))).
Proof.
  split; [apply format_sources_list_rows|].
  rewrite bibliography_rows_eq, number_rows_length, length_firstn. f_equal.
  rewrite <- (length_map entry_url).
  apply NoDup_same_length.
  - apply dedup_urls_NoDup_urls.
  - apply NoDup_nodup.
  - intros u. rewrite dedup_urls_In, nodup_In. split.
    + intros [H _]. eapply Permutation_in; [|exact H].
      apply Permutation_sym, Permutation_map, sorted_sources_perm.
    + intros H. split; [|intros []]. eapply Permutation_in; [|exact H].
      apply Permutation_map, sorted_sources_perm.
Qed.

Lemma number_rows_In c l n e : In (n, e) (number_rows c l) -> In e l.
Proof.
  revert c. induction l as [|x r IH]; intros c; cbn [number_rows]; [tauto|].
  intros [[= _ <-]|H]; [left; reflexivity|right; eapply IH, H].
Qed.

Lemma firstn_incl {A} k (l : list A) x : In x (firstn k l) -> In x l.
Proof.
  intros H. rewrite <- (firstn_skipn k l). apply in_or_app. left. exact H.
Qed.

Lemma firstn_NoDup {A} k (l : list A) : NoDup l -> NoDup (firstn k l).
Proof.
  intros H. rewrite <- (firstn_skipn k l) in H. eapply NoDup_app_remove_r, H.
Qed.

(** X11. No url stands twice in the rows that [format_sources_list]
    prints, and every row is an entry of the registry. *)
Theorem bibliography_rows_distinct (m : CitationManager) :
  format_sources_list m = sources_header +++ render_rows (bibliography_rows m)
  /\ NoDup (map (fun row => entry_url (snd row)) (bibliography_rows m))
  /\ forall n e, In (n, e) (bibliography_rows m) -> In e (source_registry m).
Proof.
  split; [apply format_sources_list_rows|].
  rewrite bibliography_rows_eq. split.
  - rewrite <- map_map, number_rows_snd, <- firstn_map.
    apply firstn_NoDup, dedup_urls_NoDup_urls.
  - intros n e H. apply number_rows_In in H.
    apply firstn_incl in H. apply dedup_urls_incl in H.
    eapply Permutation_in; [|exact H].
    apply Permutation_sym, sorted_sources_perm.
Qed.

Lemma sorted_sources_reachable m :
  reachable m -> sorted_sources m = source_registry m.
Proof.
  intros Hr. destruct (reachable_canonical _ Hr) as [l (Hreg & _ & _)].
  unfold sorted_sources. rewrite Hreg.
  apply py_sorted_id, number_from_sorted.
Qed.

Lemma number_rows_nth c l i e :
  nth_error l i = Some e -> In (c + Z.of_nat i, e) (number_rows c l).
Proof.
  revert c i. induction l as [|x r IH]; intros c i; [destruct i; discriminate|].
  destruct i as [|i]; cbn [nth_error number_rows].
  - intros [= ->]. left. f_equal. lia.
  - intros H. right. replace (c + Z.of_nat (S i)) with (c + 1 + Z.of_nat i) by lia.
    apply IH, H.
Qed.

(** X12. In a reachable manager the bibliography lists the sources in
    insertion order, the first ten of them, and whoever has a citation
    number from 1 to 10 has the row of that number: every marker up to
    [[10]] points at a row. *)
Theorem bibliography_insertion_order (m : CitationManager) :
  reachable m ->
  bibliography_rows m = number_rows 1 (firstn 10 (source_registry m))
  /\ format_sources_list m
     = sources_header
       +++ render_rows (number_rows 1 (firstn 10 (source_registry m)))
  /\ forall sid n, 1 <= n <= 10 -> get_citation_number m sid = n ->
       exists s, In (n, (sid, s)) (bibliography_rows m).
Proof.
  intros Hr.
  assert (Hrows : bibliography_rows m
                  = number_rows 1 (firstn 10 (source_registry m))).
  { destruct (reachable_canonical _ Hr) as [l (Hreg & _ & Hd)].
    rewrite bibliography_rows_unique_urls
      by (rewrite Hreg, number_from_urls; exact Hd).
    rewrite (sorted_sources_reachable _ Hr). reflexivity. }
  split; [exact Hrows|]. split; [rewrite format_sources_list_rows, Hrows; reflexivity|].
  intros sid n Hn E. rewrite Hrows.
  unfold get_citation_number in E.
  destruct (list_index sid (dict_keys (source_registry m))) as [i|] eqn:Ei; [|lia].
  apply list_index_Some in Ei as [Ei _]. unfold dict_keys in Ei.
  rewrite nth_error_map in Ei.
  destruct (nth_error (source_registry m) i) as [[k s]|] eqn:En; [|discriminate].
  injection Ei as ->. exists s. subst n.
  replace (Z.of_nat i + 1) with (1 + Z.of_nat i) by lia.
  apply number_rows_nth. rewrite nth_error_firstn.
  destruct (Nat.ltb_spec i 10); [exact En|lia].
Qed.

Lemma bibliography_insertion_order_witness :
  exists s, In (10, ("src_10", s)) (bibliography_rows fifteen).
Proof.
  destruct (bibliography_insertion_order fifteen) as (_ & _ & H).
  - apply reachable_add_all, reachable_reset.
  - apply H; [lia|reflexivity].
Defined.

(** * Further properties of the search agent *)

(** ** Deduplication *)

Section DedupBy.
Context {A : Type} (key : A -> string).

Lemma dedup_by_In seen l u :
  In u (map key (dedup_by key seen l)) <-> In u (map key l) /\ ~ In u seen.
Proof.
  revert seen. induction l as [|x r IH]; intros seen; cbn [dedup_by map].
  - simpl. tauto.
  - destruct (str_mem (key x) seen) eqn:E.
    + apply str_mem_In in E. rewrite IH. simpl.
      split; [tauto|]. intros [[<-|H] Hn]; tauto.
    + assert (Hn : ~ In (key x) seen)
        by (intros H; apply str_mem_In in H; congruence).
      cbn [map In]. rewrite IH. simpl.
      destruct (string_dec (key x) u) as [<-|Hne]; [tauto|].
      intuition congruence.
Qed.

Lemma dedup_by_NoDup seen l : NoDup (map key (dedup_by key seen l)).
Proof.
  revert seen. induction l as [|x r IH]; intros seen; cbn [dedup_by].
  - constructor.
  - destruct (str_mem (key x) seen); [apply IH|].
    cbn [map]. constructor; [|apply IH].
    rewrite dedup_by_In. simpl. tauto.
Qed.

Lemma dedup_by_subseq seen l : subseq (dedup_by key seen l) l.
Proof.
  revert seen. induction l as [|x r IH]; intros seen; cbn [dedup_by].
  - constructor.
  - destruct (str_mem (key x) seen); constructor; apply IH.
Qed.

Lemma dedup_by_id seen l :
  NoDup (map key l) -> (forall x, In x (map key l) -> ~ In x seen) ->
  dedup_by key seen l = l.
Proof.
  revert seen. induction l as [|x r IH]; intros seen Hd Hs; [reflexivity|].
  cbn [dedup_by]. cbn [map] in Hd, Hs. inversion Hd as [|? ? Hni Hd']; subst.
  destruct (str_mem (key x) seen) eqn:E.
  - apply str_mem_In in E. exfalso. apply (Hs (key x)); [left; reflexivity|exact E].
  - f_equal. apply IH; [exact Hd'|].
    intros y Hy [<-|Hin]; [exact (Hni Hy)|]. apply (Hs y); [right; exact Hy|exact Hin].
Qed.

(** The element kept for a key is the first one of the list with it. *)
Lemma dedup_by_first seen l x :
  In x (dedup_by key seen l) ->
  find (fun y => String.eqb (key y) (key x)) l = Some x.
Proof.
  revert seen. induction l as [|y r IH]; intros seen; cbn [dedup_by find];
    [intros []|].
  destruct (str_mem (key y) seen) eqn:E.
  - intros H. destruct (String.eqb_spec (key y) (key x)) as [Ek|Ek]; [|eauto].
    exfalso. apply str_mem_In in E.
    assert (Hk : In (key x) (map key (dedup_by key seen r))) by (apply in_map, H).
    apply dedup_by_In in Hk. rewrite <- Ek in Hk. tauto.
  - intros [->|H]; [rewrite String.eqb_refl; reflexivity|].
    destruct (String.eqb_spec (key y) (key x)) as [Ek|Ek]; [|eauto].
    exfalso.
    assert (Hk : In (key x) (map key (dedup_by key (key y :: seen) r)))
      by (apply in_map, H).
    apply dedup_by_In in Hk. rewrite <- Ek in Hk. simpl in Hk. tauto.
Qed.

End DedupBy.

Lemma dedup_loop h l : forall acc seen,
  fst (fold_left (dedup_step h) l (acc, seen))
  = acc ++ dedup_by (fun r => url (h r)) seen l.
Proof.
  induction l as [|r t IH]; intros acc seen.
  - cbn. rewrite List.app_nil_r. reflexivity.
  - cbn [fold_left dedup_by]. unfold dedup_step at 2.
    destruct (str_mem (url (h r)) seen); cbn [negb].
    + apply IH.
    + rewrite IH, <- List.app_assoc. reflexivity.
Qed.

Lemma deduplicate_sources_eq h l :
  deduplicate_sources h l = dedup_by (fun r => url (h r)) [] l.
Proof. unfold deduplicate_sources. rewrite dedup_loop. reflexivity. Qed.

(** X13. [deduplicate_sources] returns its argument with some sources
    left out, in the same order; the sources kept have pairwise
    different urls, every url of the argument is still there, and the
    source kept for a url is the first one of the argument with it. *)
Theorem deduplicate_sources_first (h : store) (sources : list ref) :
  let unique := deduplicate_sources h sources in
  subseq unique sources
  /\ NoDup (map (fun r => url (h r)) unique)
  /\ (forall u, In u (map (fun r => url (h r)) sources)
               <-> In u (map (fun r => url (h r)) unique))
  /\ (forall r, In r unique ->
        find (fun x => String.eqb (url (h x)) (url (h r))) sources = Some r).
Proof.
  cbv zeta. rewrite deduplicate_sources_eq. repeat apply conj.
  - apply dedup_by_subseq.
  - apply dedup_by_NoDup.
  - intros u. rewrite (dedup_by_In (fun r => url (h r))). simpl. tauto.
  - intros r. apply (dedup_by_first (fun r => url (h r))).
Qed.

(** X14. Deduplicating twice is deduplicating once, and a list whose
    sources have pairwise different urls comes back as it is. *)
Theorem deduplicate_sources_idempotent (h : store) (sources : list ref) :
  deduplicate_sources h (deduplicate_sources h sources)
  = deduplicate_sources h sources
  /\ (NoDup (map (fun r => url (h r)) sources) ->
      deduplicate_sources h sources = sources).
Proof.
  assert (H : forall l, NoDup (map (fun r => url (h r)) l) ->
                        deduplicate_sources h l = l).
  { intros l Hd. rewrite deduplicate_sources_eq.
    apply dedup_by_id; [exact Hd|intros x _ []]. }
  split; [|apply H]. apply H.
  rewrite deduplicate_sources_eq. apply dedup_by_NoDup.
Qed.

Lemma deduplicate_sources_idempotent_witness :
  deduplicate_sources demo_store [0; 1]%nat = [0; 1]%nat.
Proof.
  apply (deduplicate_sources_idempotent demo_store [0; 1]%nat).
  repeat constructor; simpl; intuition discriminate.
Defined.

(** ** Search queries *)

Lemma py_lstrip_starts s : starts_with_space (py_lstrip s) = false.
Proof.
  induction s as [|c r IH]; [reflexivity|]. cbn [py_lstrip].
  destruct (is_space c) eqn:E; [exact IH|]. simpl. exact E.
Qed.

Lemma py_rstrip_starts s :
  starts_with_space s = false -> starts_with_space (py_rstrip s) = false.
Proof.
  destruct s as [|c r]; [reflexivity|]. cbn [starts_with_space py_rstrip].
  intros E. destruct (py_rstrip r); [rewrite E|]; simpl; exact E.
Qed.

Lemma py_rstrip_ends s : ends_with_space (py_rstrip s) = false.
Proof.
  induction s as [|c r IH]; [reflexivity|]. cbn [py_rstrip].
  destruct (py_rstrip r) as [|c' r'] eqn:E.
  - destruct (is_space c) eqn:Ec; [reflexivity|]. simpl. exact Ec.
  - exact IH.
Qed.

Lemma py_lstrip_forall p s :
  string_forall p s = true -> string_forall p (py_lstrip s) = true.
Proof.
  induction s as [|c r IH]; [reflexivity|]. cbn [py_lstrip].
  destruct (is_space c); [|tauto]. cbn [string_forall].
  rewrite andb_true_iff. intros [_ H]. auto.
Qed.

Lemma py_rstrip_forall p s :
  string_forall p s = true -> string_forall p (py_rstrip s) = true.
Proof.
  induction s as [|c r IH]; [reflexivity|]. cbn [py_rstrip string_forall].
  rewrite andb_true_iff. intros [Hc Hr]. specialize (IH Hr).
  destruct (py_rstrip r).
  - destruct (is_space c); [reflexivity|]. cbn. rewrite Hc. reflexivity.
  - cbn [string_forall]. rewrite Hc. exact IH.
Qed.

Lemma split_on_pieces sep s :
  Forall (fun p => string_forall (fun c => negb (Ascii.eqb c sep)) p = true)
         (split_on sep s).
Proof.
  induction s as [|c r IH]; cbn [split_on].
  - repeat constructor.
  - destruct (Ascii.eqb c sep) eqn:E.
    + constructor; [reflexivity|exact IH].
    + destruct (split_on sep r) as [|p ps].
      * repeat constructor. cbn. rewrite E. reflexivity.
      * inversion IH as [|? ? Hp Hps]; subst. constructor; [|exact Hps].
        cbn. rewrite E. exact Hp.
Qed.

(** X15. Whatever the model answers, [generate_search_queries] returns
    at most five queries, so that [search_and_analyze] runs at most six
    searches; each query is a line of the answer without the white space
    around it: it is not empty, has no line break in it and neither
    starts nor ends with white space. *)
Theorem parse_queries_shape (content query : string) :
  (List.length (parse_queries content) <= 5)%nat
  /\ (List.length (query :: parse_queries content) <= 6)%nat
  /\ Forall
       (fun q =>
          q <> ""
          /\ starts_with_space q = false
          /\ ends_with_space q = false
          /\ string_forall (fun c => negb (Ascii.eqb c newline)) q = true
          /\ exists line, In line (split_on newline content) /\ q = py_strip line)
       (parse_queries content).
Proof.
  assert (Hl : (List.length (parse_queries content) <= 5)%nat).
  { unfold parse_queries. rewrite length_firstn. lia. }
  split; [exact Hl|]. split; [cbn [List.length]; lia|].
  apply Forall_forall. intros q Hq. unfold parse_queries in Hq.
  apply firstn_incl in Hq. apply in_map_iff in Hq as (line & <- & Hline).
  apply filter_In in Hline as [Hin Hne].
  repeat split.
  - intros E. rewrite E in Hne. discriminate.
  - apply py_rstrip_starts, py_lstrip_starts.
  - apply py_rstrip_ends.
  - apply py_rstrip_forall, py_lstrip_forall.
    exact (proj1 (Forall_forall _ _) (split_on_pieces newline content) _ Hin).
  - exists line. split; [exact Hin|reflexivity].
Qed.

(** ** Search results *)

Lemma substring_length n s : (String.length (substring 0 n s) <= n)%nat.
Proof.
  revert s. induction n as [|n IH]; intros [|c r]; simpl; try lia.
  specialize (IH r). lia.
Qed.

Section ProcessSearchResultsFacts.
Variable urlparse_netloc : string -> option string.
Variable clock : nat -> Z.

Local Abbreviation process := (process_search_results urlparse_netloc clock).
Local Abbreviation of_result := (source_of_result urlparse_netloc clock).

Lemma process_items_In i items s :
  In s (process_items urlparse_netloc clock i items) ->
  exists j result, nth_error items j = Some (RawDict result)
                   /\ s = of_result (i + j)%nat result.
Proof.
  revert i. induction items as [|[result|] r IH]; intros i; cbn [process_items].
  - intros [].
  - intros [<-|H].
    + exists O, result. rewrite Nat.add_0_r. split; reflexivity.
    + destruct (IH _ H) as (j & res & Hj & ->). exists (S j), res.
      split; [exact Hj|]. f_equal. lia.
  - intros H. destruct (IH _ H) as (j & res & Hj & ->). exists (S j), res.
    split; [exact Hj|]. f_equal. lia.
Qed.

Lemma process_items_nth i items j result :
  nth_error items j = Some (RawDict result) ->
  In (of_result (i + j)%nat result) (process_items urlparse_netloc clock i items).
Proof.
  revert i j. induction items as [|x r IH]; intros i j; [destruct j; discriminate|].
  destruct j as [|j]; cbn [nth_error].
  - intros [= ->]. rewrite Nat.add_0_r. left. reflexivity.
  - intros H. replace (i + S j)%nat with (S i + j)%nat by lia.
    destruct x; cbn [process_items]; [right|]; apply IH, H.
Qed.

Lemma process_items_length i items :
  List.length (process_items urlparse_netloc clock i items)
  = List.length (filter is_dict items).
Proof.
  revert i. induction items as [|[result|] r IH]; intros i; cbn; auto.
Qed.

Lemma process_items_nth_error i items j result :
  nth_error items j = Some (RawDict result) ->
  nth_error (process_items urlparse_netloc clock i items)
            (List.length (filter is_dict (firstn j items)))
  = Some (of_result (i + j)%nat result).
Proof.
  revert i j. induction items as [|x r IH]; intros i j; [destruct j; discriminate|].
  destruct j as [|j]; cbn [nth_error].
  - intros [= ->]. rewrite Nat.add_0_r. reflexivity.
  - intros H. replace (i + S j)%nat with (S i + j)%nat by lia.
    cbn [firstn filter]. destruct x as [res|]; cbn [is_dict process_items].
    + cbn [List.length nth_error]. apply IH, H.
    + apply IH, H.
Qed.

(** X16. [process_search_results] makes one source for every hit that
    is a dictionary, in order, and none when the answer has no list of
    hits: the source of the hit at position [j] stands at the position
    that counts the dictionaries before [j].  Every source it makes has
    an empty [id], a snippet of at most 800 characters and the domain of
    its url; the source of the hit at position [j] takes its url, title
    and score from the hit, with [""], "Source j+1" and 0.5 for what the
    hit does not have. *)
Theorem process_search_results_sources (results : option (list raw_item))
  (query : string) :
  process None query = []
  /\ (forall items, results = Some items ->
        List.length (process results query) = List.length (filter is_dict items)
        /\ forall j result, nth_error items j = Some (RawDict result) ->
             exists s,
               nth_error (process results query)
                         (List.length (filter is_dict (firstn j items))) = Some s
               /\ In s (process results query)
               /\ url s = get_or (raw_url result) ""
               /\ title s = get_or (raw_title result)
                              ("Source " +++ str_of_int (Z.of_nat j + 1))
               /\ relevance_score s = get_or (raw_score result) (1 # 2)%Q
               /\ timestamp s = clock j)
  /\ Forall
       (fun s => id s = ""
                 /\ (String.length (snippet s) <= 800)%nat
                 /\ domain s = extract_domain urlparse_netloc (url s))
       (process results query).
Proof.
  split; [reflexivity|]. split.
  - intros items ->. cbn [process_search_results]. split.
    + apply process_items_length.
    + intros j result Hj. exists (of_result j result). split; [|split].
      * exact (process_items_nth_error 0 items j result Hj).
      * exact (process_items_nth 0 items j result Hj).
      * repeat split.
  - apply Forall_forall. intros s Hs. destruct results as [items|]; [|destruct Hs].
    apply process_items_In in Hs as (j & result & _ & ->).
    repeat split. apply substring_length.
Qed.

End ProcessSearchResultsFacts.

Lemma process_search_results_sources_witness :
  exists s,
    nth_error
      (process_search_results (fun _ => None) (fun _ => 0)
         (Some [RawDict (mkRaw None None None (Some "first") None); RawOther;
                RawDict (mkRaw None (Some "text") None None None)]) "q")
      1%nat = Some s
    /\ url s = "" /\ title s = "Source 3" /\ relevance_score s = (1 # 2)%Q.
Proof.
  destruct (process_search_results_sources (fun _ => None) (fun _ => 0)
              (Some [RawDict (mkRaw None None None (Some "first") None); RawOther;
                     RawDict (mkRaw None (Some "text") None None None)]) "q")
    as (_ & H & _).
  destruct (H _ eq_refl) as [_ H2].
  destruct (H2 2%nat _ eq_refl) as (s & Hn & _ & Hu & Ht & Hs & _).
  exists s. repeat split; assumption.
Defined.

(** ** From the sources found to the registry *)

Lemma iter_rescore_url k s : url (Nat.iter k rescore s) = url s.
Proof. induction k as [|k IH]; [reflexivity|]. simpl. exact IH. Qed.

Lemma rescore_loop_url l h r : url (fold_left rescore_step l h r) = url (h r).
Proof. rewrite rescore_loop. apply iter_rescore_url. Qed.

Lemma int_dict_set_new {V} k (v : V) d :
  ~ In k (map fst d) -> int_dict_set k v d = d ++ [(k, v)].
Proof.
  induction d as [|[k' v'] r IH]; simpl; intros H; [reflexivity|].
  destruct (Z.eqb_spec k' k) as [->|Hn]; [tauto|].
  rewrite IH by tauto. reflexivity.
Qed.

Lemma index_rows_keys c l k :
  In k (map fst (index_rows c l)) -> c <= k < c + Z.of_nat (List.length l).
Proof.
  revert c. induction l as [|s r IH]; intros c; cbn [index_rows map fst List.length In].
  - tauto.
  - intros [<-|H]; [lia|]. apply IH in H. lia.
Qed.

Lemma index_rows_app c l1 l2 :
  index_rows c (l1 ++ l2)
  = index_rows c l1 ++ index_rows (c + Z.of_nat (List.length l1)) l2.
Proof.
  revert c. induction l1 as [|s r IH]; intros c; cbn [app index_rows List.length].
  - f_equal. lia.
  - rewrite IH. do 3 f_equal. lia.
Qed.

Lemma register_loop_canonical l : forall m l0,
  canonical m l0 -> NoDup (map url (l0 ++ l)) ->
  let '(m', reg, idx) :=
    register_loop (1 + Z.of_nat (List.length l0)) l
                  (m, source_registry m, index_rows 1 l0) in
  canonical m' (l0 ++ l) /\ reg = source_registry m'
  /\ idx = index_rows 1 (l0 ++ l) /\ m' = snd (add_all m l).
Proof.
  induction l as [|s r IH]; intros m l0 Hc Hd.
  - cbn. rewrite List.app_nil_r. auto.
  - assert (Hf : find_url (url s) (source_registry m) = None).
    { apply (canonical_find_None m l0 s Hc). rewrite map_app in Hd.
      simpl in Hd. apply NoDup_remove_2 in Hd. intros H. apply Hd.
      apply in_or_app. auto. }
    pose proof (canonical_add_new _ _ _ Hc Hf) as Hc'.
    cbn [register_loop add_all]. rewrite (add_source_new _ _ Hf) in *.
    cbn [snd] in Hc'.
    specialize (IH _ (l0 ++ [s]) Hc').
    rewrite <- List.app_assoc in IH. specialize (IH Hd).
    rewrite length_app in IH. cbn [List.length] in IH.
    replace (1 + Z.of_nat (List.length l0 + 1)) with (1 + Z.of_nat (List.length l0) + 1)
      in IH by lia.
    cbn [source_registry] in IH.
    rewrite int_dict_set_new
      by (intros H; apply index_rows_keys in H; lia).
    rewrite index_rows_app in IH. cbn [index_rows] in IH.
    destruct (register_loop _ r _) as [[m' reg] idx].
    destruct (add_all _ r) as [ids m2]. cbn [snd] in *. exact IH.
Qed.

Lemma StronglySorted_firstn {A} (R : A -> A -> Prop) k l :
  StronglySorted R l -> StronglySorted R (firstn k l).
Proof.
  intros H. revert k. induction H as [|x xs Hs IH Hx]; intros [|k]; cbn [firstn];
    constructor; [apply IH|].
  apply Forall_forall. intros y Hy. apply firstn_incl in Hy.
  exact (proj1 (Forall_forall _ _) Hx _ Hy).
Qed.

Lemma StronglySorted_map {A B} (f : A -> B) (R : B -> B -> Prop) l :
  StronglySorted (fun a b => R (f a) (f b)) l -> StronglySorted R (map f l).
Proof.
  induction 1 as [|x xs Hs IH Hx]; cbn [map]; constructor; [exact IH|].
  apply Forall_forall. intros y Hy. apply in_map_iff in Hy as (z & <- & Hz).
  exact (proj1 (Forall_forall _ _) Hx _ Hz).
Qed.

Lemma number_from_values c l : map snd (number_from c l) = l.
Proof. revert c. induction l; intros; simpl; [reflexivity|]. f_equal. auto. Qed.

Lemma register_ranked_canonical h all_sources query :
  let h' := fst (rank_sources h (deduplicate_sources h all_sources) query) in
  let ranked := snd (rank_sources h (deduplicate_sources h all_sources) query) in
  let top := map h' (firstn 10 ranked) in
  register_ranked h all_sources query
  = (h', (snd (add_all reset top), number_from 1 top, index_rows 1 top))
  /\ canonical (snd (add_all reset top)) top.
Proof.
  cbv zeta. unfold register_ranked, rank_sources. cbn [fst snd].
  set (unique := deduplicate_sources h all_sources).
  set (h' := fold_left rescore_step unique h).
  set (ranked := py_sorted Qlt_bool (fun x => relevance_score (h' x)) true unique).
  assert (Hperm : Permutation unique ranked) by apply py_sorted_perm.
  assert (Hd : NoDup (map url ([] ++ map h' (firstn 10 ranked)))).
  { cbn [app]. rewrite map_map.
    rewrite (map_ext _ (fun r => url (h r)))
      by (intros r; apply rescore_loop_url).
    rewrite <- firstn_map. apply firstn_NoDup.
    eapply Permutation_NoDup; [apply Permutation_map, Hperm|].
    unfold unique. rewrite deduplicate_sources_eq. apply dedup_by_NoDup. }
  pose proof (register_loop_canonical (map h' (firstn 10 ranked)) reset []
                canonical_reset Hd) as H.
  cbn [List.length Z.of_nat index_rows source_registry reset app] in H.
  change (1 + 0) with 1 in H.
  destruct (register_loop 1 (map h' (firstn 10 ranked)) _) as [[m reg] idx].
  destruct H as (Hc & -> & -> & ->). split; [|exact Hc].
  destruct Hc as (-> & _ & _). reflexivity.
Qed.

(** X17. Steps 3 and 4 of [search_and_analyze] leave a reachable
    manager whose registry is the ["sources"] entry of the result: the
    deduplicated sources, with their scores as ranking rewrote them, in
    descending order of score, the first ten of them, under [src_1],
    [src_2], ... in that order.  So the citation number of a source is
    its rank, and ["indexed_sources"] lists url and title under the same
    numbers. *)
Theorem register_ranked_registry (h : store) (all_sources : list ref)
  (query : string) :
  let unique := deduplicate_sources h all_sources in
  let ranked := snd (rank_sources h unique query) in
  let '(h', (m, sources, indexed)) := register_ranked h all_sources query in
  reachable m
  /\ sources = source_registry m
  /\ source_registry m = number_from 1 (map h' (firstn 10 ranked))
  /\ List.length sources = Nat.min 10 (List.length unique)
  /\ citation_counter m = Z.of_nat (List.length sources) + 1
  /\ StronglySorted (fun a b => (relevance_score b <= relevance_score a)%Q)
                    (map snd sources)
  /\ indexed = index_rows 1 (map snd sources).
Proof.
  cbv zeta.
  destruct (register_ranked_canonical h all_sources query) as [-> (Hreg & Hn & _)].
  unfold rank_sources in *. cbn [fst snd] in *.
  set (unique := deduplicate_sources h all_sources) in *.
  set (h' := fold_left rescore_step unique h) in *.
  set (ranked := py_sorted Qlt_bool (fun x => relevance_score (h' x)) true unique) in *.
  assert (Hperm : Permutation unique ranked) by apply py_sorted_perm.
  repeat apply conj.
  - apply reachable_add_all, reachable_reset.
  - symmetry. exact Hreg.
  - exact Hreg.
  - rewrite number_from_length, length_map, length_firstn.
    rewrite (Permutation_length Hperm). reflexivity.
  - rewrite Hn, number_from_length. lia.
  - rewrite number_from_values. apply StronglySorted_map, StronglySorted_firstn.
    eapply StronglySorted_impl;
      [|apply (py_sorted_sorted Qlt_bool (fun x => relevance_score (h' x)) true);
        [exact Qlt_bool_asym|exact Qlt_bool_negtrans]].
    intros a b Hab. unfold in_order, goes_after in Hab. apply Qlt_bool_false, Hab.
  - rewrite number_from_values. reflexivity.
Qed.

(** With a reddit.com source of score 0.1 found before a source of
    score 0.3 on a domain outside the table, rounding ranks the second
    first, and it is the one registered as [src_1]. *)
Example register_ranked_rounding :
  let '(_, (m, _, _)) := register_ranked close_store [0; 1]%nat "q" in
  map (fun e => (fst e, url (snd e))) (source_registry m)
  = [("src_1", "https://example.net/b"); ("src_2", "https://reddit.com/a")].
Proof. vm_compute. reflexivity. Qed.

(** * Properties of the synthesis agent *)

Lemma str_mem_ext x a b :
  (forall u, In u a <-> In u b) -> str_mem x a = str_mem x b.
Proof.
  intros H. destruct (str_mem x b) eqn:E.
  - apply str_mem_In. apply H. apply str_mem_In, E.
  - destruct (str_mem x a) eqn:E'; [|reflexivity].
    apply str_mem_In, H, str_mem_In in E'. congruence.
Qed.

Lemma dedup_by_seen_ext {A} (key : A -> string) l : forall a b,
  (forall u, In u a <-> In u b) -> dedup_by key a l = dedup_by key b l.
Proof.
  induction l as [|x r IH]; intros a b H; [reflexivity|]. cbn [dedup_by].
  rewrite (str_mem_ext _ a b H). destruct (str_mem (key x) b); [apply IH, H|].
  f_equal. apply IH. intros u. simpl. rewrite H. tauto.
Qed.

Lemma add_all_dedup l : forall m l0,
  canonical m l0 ->
  canonical (snd (add_all m l)) (l0 ++ dedup_by url (map url l0) l).
Proof.
  induction l as [|s r IH]; intros m l0 Hc.
  - cbn. rewrite List.app_nil_r. exact Hc.
  - cbn [add_all dedup_by].
    destruct (str_mem (url s) (map url l0)) eqn:E.
    + apply str_mem_In in E.
      destruct (find_url (url s) (source_registry m)) as [[k e]|] eqn:Ef.
      * rewrite (add_source_existing _ _ _ _ Ef). specialize (IH m l0 Hc).
        destruct (add_all m r). exact IH.
      * exfalso. apply (canonical_find_None m l0 s Hc) in Ef. tauto.
    + assert (Hf : find_url (url s) (source_registry m) = None).
      { apply (canonical_find_None m l0 s Hc). intros H.
        apply str_mem_In in H. congruence. }
      pose proof (canonical_add_new _ _ _ Hc Hf) as Hc'.
      rewrite (add_source_new _ _ Hf) in *. cbn [snd] in Hc'.
      specialize (IH _ _ Hc').
      destruct (add_all _ r) as [ids m2]. cbn [snd] in *.
      rewrite <- List.app_assoc in IH. cbn [app] in IH.
      rewrite (dedup_by_seen_ext url r (map url (l0 ++ [s])) (url s :: map url l0)) in IH.
      * exact IH.
      * intros u. rewrite map_app, in_app_iff. simpl. tauto.
Qed.

Lemma reachable_url_to_id m : reachable m -> url_to_id m = [].
Proof.
  induction 1 as [|m s Hm IH]; [reflexivity|].
  unfold add_source. destruct (find_url _ _) as [[k e]|]; exact IH.
Qed.

Lemma load_sources_canonical d :
  canonical (load_sources d) (dedup_by url [] (map snd d)).
Proof. exact (add_all_dedup (map snd d) reset [] canonical_reset). Qed.

Lemma load_sources_reachable d : reachable (load_sources d).
Proof. apply (reachable_add_all reset), reachable_reset. Qed.

Lemma load_sources_roundtrip m :
  reachable m -> load_sources (source_registry m) = m.
Proof.
  intros Hr. destruct (reachable_canonical _ Hr) as [l (Hreg & Hn & Hd)].
  destruct (load_sources_canonical (source_registry m)) as (Hreg' & Hn' & _).
  pose proof (reachable_url_to_id _ Hr) as Hu.
  pose proof (reachable_url_to_id _ (load_sources_reachable (source_registry m)))
    as Hu'.
  set (m' := load_sources (source_registry m)) in *. clearbody m'.
  rewrite Hreg, number_from_values in Hreg', Hn'.
  rewrite dedup_by_id in Hreg', Hn' by (try exact Hd; intros x _ []).
  destruct m as [reg c u], m' as [reg' c' u'].
  cbn [source_registry citation_counter url_to_id] in *. congruence.
Qed.

(** X18. Loading a dictionary of sources into the manager keeps, for
    every url, the first source that has it, in order, and gives them the
    identifiers [src_1], [src_2], ... whatever their keys were.  Loading
    the registry of a reachable manager gives that manager back. *)
Theorem load_sources_registry (sources : dict Source) :
  reachable (load_sources sources)
  /\ source_registry (load_sources sources)
     = number_from 1 (dedup_by url [] (map snd sources))
  /\ dict_keys (source_registry (load_sources sources))
     = map (fun k => "src_" +++ str_of_int k)
           (map Z.of_nat
              (seq 1 (List.length (dedup_by url [] (map snd sources)))))
  /\ (forall m, reachable m -> load_sources (source_registry m) = m).
Proof.
  destruct (load_sources_canonical sources) as (Hreg & _ & _).
  repeat apply conj.
  - apply load_sources_reachable.
  - exact Hreg.
  - rewrite Hreg, number_from_dict_keys, <- seq_shift, !map_map.
    apply map_ext. intros i. unfold src_id. do 2 f_equal. lia.
  - exact load_sources_roundtrip.
Qed.

Lemma load_sources_registry_witness :
  load_sources (source_registry fifteen) = fifteen.
Proof.
  apply load_sources_registry; [exact []|].
  apply reachable_add_all, reachable_reset.
Defined.






(** * From search to synthesis *)

Lemma number_rows_index c l :
  map (fun row => (fst row, (url (snd (snd row)), title (snd (snd row)))))
      (number_rows c (number_from c l))
  = index_rows c l.
Proof.
  revert c. induction l as [|s r IH]; intros c; [reflexivity|].
  cbn [number_from number_rows index_rows map fst snd]. f_equal. apply IH.
Qed.

(** X20. The synthesis agent, given the ["sources"] of the search agent,
    rebuilds the very manager the search agent ended with.  So the
    bibliography of the final response lists all these sources in rank
    order, row [n] carrying the url and title that ["indexed_sources"]
    has under [n], and the citation number of a source is the number of
    its row. *)
Theorem search_then_synthesize (h : store) (all_sources : list ref)
  (query text : string) :
  let '(h', (m, sources, indexed)) := register_ranked h all_sources query in
  load_sources sources = m
  /\ snd (synthesize_response sources text)
     = content (fst (synthesize_response sources text))
       +++ sources_header +++ render_rows (number_rows 1 sources)
  /\ map (fun row => (fst row, (url (snd (snd row)), title (snd (snd row)))))
         (number_rows 1 sources) = indexed
  /\ forall n sid s, In (n, (sid, s)) (number_rows 1 sources) ->
       get_citation_number (load_sources sources) sid = n.
Proof.
  destruct (register_ranked_canonical h all_sources query) as [-> Hc].
  cbv zeta in Hc.
  set (top := map (fst (rank_sources h (deduplicate_sources h all_sources) query))
                  (firstn 10 (snd (rank_sources h
                                     (deduplicate_sources h all_sources) query))))
    in *.
  set (m := snd (add_all reset top)) in *.
  assert (Hr : reachable m) by (apply reachable_add_all, reachable_reset).
  pose proof Hc as (Hreg & _ & Hd).
  assert (Hlen : (List.length top <= 10)%nat).
  { unfold top. rewrite length_map, length_firstn. lia. }
  assert (Hload : load_sources (number_from 1 top) = m).
  { rewrite <- Hreg. apply load_sources_roundtrip, Hr. }
  repeat apply conj.
  - exact Hload.
  - unfold synthesize_response. cbn [fst snd]. rewrite Hload. f_equal.
    rewrite format_sources_list_rows. f_equal. f_equal.
    rewrite bibliography_rows_unique_urls
      by (rewrite Hreg, number_from_urls; exact Hd).
    rewrite (sorted_sources_reachable _ Hr), Hreg.
    rewrite firstn_all2 by (rewrite number_from_length; exact Hlen).
    reflexivity.
  - apply number_rows_index.
  - intros n sid s Hin. rewrite Hload.
    apply number_rows_number_from in Hin as (i & Hi & -> & ->).
    unfold get_citation_number. rewrite Hreg, list_index_number_from by exact Hi.
    lia.
Qed.
